(** * The fetch layer of the movie web application

    A shallow embedding of the module that resolves which stream to play:
    the thirteen exported [fetch*] functions, each wrapped in the same
    bounded retry, and the translator switch that clamps a requested
    (season, episode) to a leaf of the translator's tree.

    How the TypeScript is read:
    - an [async] function is a computation over a [World]: it may consume
      replies of the upstream, append to the request log, use the database,
      and ends in a value ([Ok]) or a thrown exception ([Throw]);
    - [await] of a call is sequencing; [try { .. } catch] is a match on the
      outcome; the calls that fetchStreamDetails makes without [await] are
      promises, which settle in an order the function does not choose;
    - a JS number is a [Z]; a value that may be [undefined] or [null] is an
      [option]; a property read on [undefined] throws [TypeError];
    - the [signal] argument is only handed on to the transport and is left
      out, as is the [Date.now()] cache buster of the AJAX address;
    - the parsers, the database and the helpers of other modules are not
      part of this module: they are the fields of the class [Imports]. *)

From stdpp Require Import base gmap strings list.
From Stdlib Require Import ZArith Lia.

Open Scope Z_scope.
Open Scope string_scope.

(** ** Exceptions and outcomes *)

Inductive Error : Type :=
| TypeError (what : string)          (* a property read on undefined *)
| UpstreamError (message : string)   (* [new Error(message)], success flag false *)
| TransportError (code : string)     (* the request client rejected *)
| ParseError (message : string).     (* thrown inside a parser *)

Inductive Result (A : Type) : Type :=
| Ok (a : A)
| Throw (e : Error).
Arguments Ok {A} a.
Arguments Throw {A} e.

Definition succeeded {A} (r : Result A) : Prop :=
  match r with Ok _ => True | Throw _ => False end.

Definition failed {A} (r : Result A) : Prop :=
  match r with Ok _ => False | Throw _ => True end.

(** ** Computations: state passing with exceptions *)

Definition M (W A : Type) : Type := W -> Result A * W.

Definition ret {W A} (a : A) : M W A := fun w => (Ok a, w).

Definition throw {W A} (e : Error) : M W A := fun w => (Throw e, w).

Definition bind {W A B} (m : M W A) (k : A -> M W B) : M W B :=
  fun w => match m w with
           | (Ok a, w') => k a w'
           | (Throw e, w') => (Throw e, w')
           end.

(** A pure step that may throw (a parser, a property read). *)
Definition lift {W A} (r : Result A) : M W A := fun w => (r, w).

Declare Scope fetch_scope.
Delimit Scope fetch_scope with fetch.
Notation "x <- m ;; k" := (bind m (fun x => k))
  (at level 100, m at next level, right associativity) : fetch_scope.
Open Scope fetch_scope.

(** ** The retry wrapper

    Every exported function has the shape
<<
    async function f(args, retry = 0) {
      try { BODY } catch (err) {
        if (retry < 3) return await f(args, retry + 1)
        throw err
      }
    }
>>
    [retry_loop n] runs the body and, when it throws, runs it again while
    [n] further attempts are left; [retrying body retry] is [f(args, retry)]:
    the attempts left are the [3 - retry] that pass the test [retry < 3].
    [retrying_unfold] below is the function's own recursive equation. *)

Fixpoint retry_loop {W A} (left : nat) (body : M W A) : M W A :=
  fun w =>
    match body w with
    | (Ok a, w') => (Ok a, w')
    | (Throw err, w') =>
        match left with
        | O => (Throw err, w')
        | S left' => retry_loop left' body w'
        end
    end.

Definition retrying {W A} (body : M W A) (retry : nat) : M W A :=
  retry_loop (3 - retry)%nat body.

(** Attempts seen from outside: the world after [n] runs of the body, and
    the outcome of the run that follows them. *)
Fixpoint world_after {W A} (body : M W A) (n : nat) (w : W) : W :=
  match n with
  | O => w
  | S n' => world_after body n' (snd (body w))
  end.

Definition outcome_at {W A} (body : M W A) (i : nat) (w : W) : Result A :=
  fst (body (world_after body i w)).

(** The body with a counter of its executions beside the world. *)
Definition counting {W A} (body : M W A) : M (W * nat) A :=
  fun wn => let '(r, w') := body (fst wn) in (r, (w', S (snd wn))).

(** ** Data of the application (the fields this module reads) *)

Record Quality := { q_id : Z; q_downloadUrl : string }.

Record Stream := { qualities : list Quality; thumbnailsUrl : string }.

Record Translator := {
  tr_id : Z; tr_isCamrip : bool; tr_isAds : bool; tr_isDirector : bool }.

Inductive OgType := VideoMovie | VideoTvSeries.

Record FullId := { f_typeId : string; f_genreId : string; f_slug : string; f_id : Z }.

Record BaseItem := {
  b_id : Z; b_favsId : string; b_ogType : OgType; b_translators : list Translator }.

(** One slot per translator of a movie. *)
Record ItemMovieStream := { ms_translatorId : Z; ms_stream : option Stream }.

Record ItemSeriesEpisodeStream := {
  e_number : Z; e_title : string; e_stream : option Stream }.

Record ItemSeriesSeasonStream := {
  s_number : Z; s_title : string; s_episodes : list ItemSeriesEpisodeStream }.

(** The tree of a translator, [null] until the translator is fetched. *)
Record ItemSeriesStream := {
  ss_translatorId : Z; ss_seasons : option (list ItemSeriesSeasonStream) }.

(** What [parseStreamSeasons] returns: the tree without stream slots. *)
Record EpisodeInfo := { pe_number : Z; pe_title : string }.
Record SeasonInfo := { ps_number : Z; ps_title : string; ps_episodes : list EpisodeInfo }.

(** The JSON envelope of [/ajax/get_cdn_series/]. *)
Record AjaxData := {
  d_success : bool;
  d_message : option string;
  d_seasons : string;
  d_episodes : string;
  d_url : string }.

Record Headers := { h_Content_Length : option string; h_content_length : option string }.

(** A season or episode number as JS holds it: [None] is [undefined]. *)
Definition JsNumber := option Z.

Record State := { season : JsNumber; episode : JsNumber }.

(** ** Requests sent upstream *)

Inductive Request : Type :=
| GetSearch (q : string)
| GetDocument (uri : string)
| GetMovie (id translator_id : Z) (favs : string) (is_camrip is_ads is_director : bool)
| GetStream (id translator_id : Z) (favs : string) (season episode : JsNumber)
| GetEpisodes (id translator_id : Z) (favs : string) (season episode : option Z)
| GetThumbnails (url : string)
| HeadDownload (url : string).

Definition is_get_stream (r : Request) : bool :=
  match r with GetStream _ _ _ _ _ => true | _ => false end.

(** ** JS operators *)

(** [x || y] on a number that may be undefined: 0 and undefined are falsy. *)
Definition truthy_number (x : option Z) : option Z :=
  match x with
  | Some n => if Z.eqb n 0 then None else Some n
  | None => None
  end.

(** [x || y] on a string that may be undefined: the empty string is falsy. *)
Definition truthy_string (x : option string) : option string :=
  match x with
  | Some s => if String.eqb s "" then None else Some s
  | None => None
  end.

Definition or_string (x : option string) (y : string) : string :=
  match truthy_string x with Some s => s | None => y end.

(** [n === x] for a number [n] and a value [x] that may be undefined. *)
Definition strict_eq (n : Z) (x : JsNumber) : bool :=
  match x with Some m => Z.eqb n m | None => false end.

(** [xs[0].field]: reading a field of the first element throws on []. *)
Definition first {A} (xs : list A) (field : string) : Result A :=
  match xs with
  | x :: _ => Ok x
  | [] => Throw (TypeError field)
  end.

(** [xs.find(p)!.field]: reading a field of what [find] returned. *)
Definition found {A} (x : option A) (field : string) : Result A :=
  match x with
  | Some a => Ok a
  | None => Throw (TypeError field)
  end.

(** ** The world outside

    The upstream answers each kind of request from a script of replies, used
    up in order (an exhausted script is a request that times out); every
    request sent is appended to [log]. [db] is the state of the database. *)

Record World (DB Document : Type) := mkWorld {
  docs : list (Result Document);    (* replies to html.get *)
  posts : list (Result AjaxData);   (* replies to ajax.post *)
  gets : list (Result string);      (* replies to ajax.get *)
  heads : list (Result Headers);    (* replies to axios.head *)
  log : list Request;
  db : DB }.
Arguments mkWorld {DB Document}.
Arguments docs {DB Document}.
Arguments posts {DB Document}.
Arguments gets {DB Document}.
Arguments heads {DB Document}.
Arguments log {DB Document}.
Arguments db {DB Document}.

Definition timeout : Error := TransportError "ECONNABORTED".

Definition reply {A} (script : list (Result A)) : Result A * list (Result A) :=
  match script with
  | r :: rest => (r, rest)
  | [] => (Throw timeout, [])
  end.

Section Transport.
Context {DB Document : Type}.
Let World := World DB Document.

Definition html_get (req : Request) : M World Document :=
  fun w => let '(r, rest) := reply (docs w) in
           (r, mkWorld rest (posts w) (gets w) (heads w) (log w ++ [req]) (db w)).

Definition ajax_post (req : Request) : M World AjaxData :=
  fun w => let '(r, rest) := reply (posts w) in
           (r, mkWorld (docs w) rest (gets w) (heads w) (log w ++ [req]) (db w)).

Definition ajax_get (req : Request) : M World string :=
  fun w => let '(r, rest) := reply (gets w) in
           (r, mkWorld (docs w) (posts w) rest (heads w) (log w ++ [req]) (db w)).

Definition axios_head (req : Request) : M World Headers :=
  fun w => let '(r, rest) := reply (heads w) in
           (r, mkWorld (docs w) (posts w) (gets w) rest (log w ++ [req]) (db w)).
End Transport.

(** ** Arguments and results of the exported functions *)

Record FetchSearchArgs := { sa_query : string }.

Record FetchItemArgs := {
  ia_fullId : FullId; ia_translatorId : option Z;
  ia_season : option Z; ia_episode : option Z }.

(** [translator] is [find(..) || translators[0]]: undefined on an empty list. *)
Record FetchItemMovieArgs := { ima_baseItem : BaseItem; ima_translator : option Translator }.

Record FetchStreamThumbnailArgs := { tha_stream : Stream }.

Record FetchStreamDetailsArgs := { da_stream : Stream }.

Record FetchStreamDownloadSizeArgs := { dsa_stream : Stream; dsa_qualityId : Z }.

Record FetchMovieStreamArgs := {
  msa_id : Z; msa_translatorId : Z; msa_favsId : string;
  msa_isCamrip : bool; msa_isAds : bool; msa_isDirector : bool }.

Record FetchSeriesStreamArgs := {
  ssa_id : Z; ssa_translatorId : Z; ssa_favsId : string;
  ssa_season : JsNumber; ssa_episode : JsNumber }.

Record FetchSeriesEpisodesStreamArgs := {
  esa_id : Z; esa_translatorId : Z; esa_favsId : string;
  esa_season : option Z; esa_episode : option Z }.

Record StreamFor := { sf_season : Z; sf_episode : Z }.

Record SeriesEpisodesStream := {
  r_seasons : list SeasonInfo; r_stream : Stream; r_streamFor : StreamFor }.

Record ItemMovie := { m_base : BaseItem; m_streams : list ItemMovieStream }.

Record FetchMovieTranslatorArgs := { mta_item : ItemMovie; mta_translatorId : Z }.

(** [{ type: 'movie', stream? }] *)
Record FetchMovieTranslatorResponse := { stream : option Stream }.

Record NextLeaf := { n_stream : Stream; n_streamFor : State }.

(** [{ type: 'series', stateTo, initial?, next? }] *)
Record FetchSeriesTranslatorResponse := {
  stateTo : State;
  initial : option (list ItemSeriesSeasonStream);
  next : option NextLeaf }.

Record DownloadSize (Bytes : Type) := {
  z_id : Z; z_downloadSize : Bytes; z_downloadSizeStr : string }.
Arguments z_id {Bytes}.
Arguments z_downloadSize {Bytes}.
Arguments z_downloadSizeStr {Bytes}.

Record StreamDetails (Bytes : Type) := {
  thumbnails : string; sizes : list (DownloadSize Bytes) }.
Arguments thumbnails {Bytes}.
Arguments sizes {Bytes}.

(** ** What this module imports

    [./parser], [./utils] and [./database] are other modules of the
    application: their functions are taken as they are called here. A parser
    may throw. A database accessor is handed the arguments and the
    computation that fills a miss, and is any computation built from them. *)

Class Imports := {
  Document : Type;        (* the DOM document of a page *)
  SearchResult : Type;    (* what parseSearchDocument returns *)
  EpisodesInfo : Type;    (* what parseItemDocumentEpisodes returns *)
  Bytes : Type;           (* a JS number holding a byte count *)
  DB : Type;              (* the state of the database *)
  parseSearchDocument : Document -> Result SearchResult;
  parseItemDocument : Document -> FullId -> Result BaseItem;
  parseItemDocumentEpisodes : Document -> Result EpisodesInfo;
  parseStream : AjaxData -> Result Stream;
  parseStreamSeasons : string -> string -> Result (list SeasonInfo);
  Number : string -> Bytes;
  bytesToStr : Bytes -> string;
  getItem : Z -> M (World DB Document) Document -> M (World DB Document) Document;
  getAjaxMovie : FetchMovieStreamArgs ->
                 M (World DB Document) AjaxData -> M (World DB Document) AjaxData;
  getStreamSize : FetchStreamDownloadSizeArgs ->
                  M (World DB Document) Bytes -> M (World DB Document) Bytes;
  getStreamThumbnail : FetchStreamThumbnailArgs ->
                       M (World DB Document) string -> M (World DB Document) string }.

Section Api.
Context `{Imports}.

(** The computations of this module. *)
Definition Fetch (A : Type) : Type := M (World DB Document) A.

Record ItemSeries := {
  se_base : BaseItem;
  se_episodesInfo : EpisodesInfo;
  se_streams : list ItemSeriesStream }.

Inductive Item :=
| Movie (item : ItemMovie)      (* itemType: 'movie' *)
| Series (item : ItemSeries).   (* itemType: 'series' *)

Record FetchItemSeriesArgs := {
  isa_baseItem : BaseItem; isa_translator : option Translator;
  isa_document : Document; isa_season : option Z; isa_episode : option Z }.

Record FetchSeriesTranslatorArgs := {
  sta_item : ItemSeries; sta_translatorId : Z; sta_state : State }.

Record FetchTranslatorArgs := {
  ta_item : Item; ta_translatorId : Z; ta_state : State }.

Inductive FetchTranslatorResponse :=
| MovieSwitch (r : FetchMovieTranslatorResponse)
| SeriesSwitch (r : FetchSeriesTranslatorResponse).

(** *** fetchSearch *)

Definition fetchSearch_body (args : FetchSearchArgs) : Fetch SearchResult :=
  data <- html_get (GetSearch (sa_query args)) ;;
  lift (parseSearchDocument data).

Definition fetchSearch (args : FetchSearchArgs) (retry : nat) : Fetch SearchResult :=
  retrying (fetchSearch_body args) retry.

(** *** fetchStreamDownloadSize, fetchStreamThumbnails *)

Definition content_length (h : Headers) : string :=
  match truthy_string (h_Content_Length h) with
  | Some v => v
  | None => or_string (h_content_length h) "0"
  end.

Definition fetchStreamDownloadSize_body (args : FetchStreamDownloadSizeArgs)
  : Fetch (DownloadSize Bytes) :=
  size <- getStreamSize args
    (quality <- lift (found (find (fun q => Z.eqb (q_id q) (dsa_qualityId args))
                                  (qualities (dsa_stream args))) "downloadUrl") ;;
     res <- axios_head (HeadDownload (q_downloadUrl quality)) ;;
     ret (Number (content_length res))) ;;
  ret {| z_id := dsa_qualityId args;
         z_downloadSize := size;
         z_downloadSizeStr := bytesToStr size |}.

Definition fetchStreamDownloadSize (args : FetchStreamDownloadSizeArgs) (retry : nat)
  : Fetch (DownloadSize Bytes) :=
  retrying (fetchStreamDownloadSize_body args) retry.

Definition fetchStreamThumbnails_body (args : FetchStreamThumbnailArgs) : Fetch string :=
  thumbnails <- getStreamThumbnail args
    (ajax_get (GetThumbnails (thumbnailsUrl (tha_stream args)))) ;;
  ret thumbnails.

Definition fetchStreamThumbnails (args : FetchStreamThumbnailArgs) (retry : nat)
  : Fetch string :=
  retrying (fetchStreamThumbnails_body args) retry.

(** *** fetchStreamDetails

    [fetchStreamThumbnails(args)] and the [fetchStreamDownloadSize(..)] calls
    are made without [await]: each call runs its first try as far as the
    request and leaves a promise, and the one [await] of the function waits
    for all of them together. So the first requests go out in the order of
    the calls, before any reply is looked at, and from then on it is the
    network, not the program, that decides which branch hears of its reply
    next.

    A promise of a wrapped function is [Settled], or [Pending]: a try of the
    body is out, its outcome is there but has not reached the branch, and
    [ahead] retries are left. A try is taken whole when it starts: the
    database accessor, the request it sends, the reply to it (replies are
    handed out in the order of the requests). [deliver] lets the outcome
    reach the branch: the branch fulfils, or it starts its next try at once,
    or it rejects when [retry < 3] fails.

    A [Schedule] gives, for the world an attempt starts in, the order in
    which outcomes reach the branches: 0 names the thumbnails, [j + 1] the
    size of quality [j]; an entry that names a settled branch, or none, is
    passed over. [Promise.all] rejects as soon as one branch rejects:
    [rejected] keeps that first reason, nothing is delivered after it, and
    the branches still pending are abandoned as they are, their last request
    sent: nothing waits for them any more, and what they do later is, like
    any other activity of the application beside this call, not followed.
    When the schedule ends with nothing rejected, the function goes on
    waiting: the pending branches run on, each to its end, in the order they
    were started ([finish]). *)

Inductive Promise (A : Type) : Type :=
| Settled (r : Result A)
| Pending (r : Result A) (body : Fetch A) (ahead : nat).
Arguments Settled {A} r.
Arguments Pending {A} r body ahead.

Definition Schedule : Type := World DB Document -> list nat.

(** [f(args)] without [await]: the first try is out, with [retry = 0] and
    three retries ahead. *)
Definition start {A} (body : Fetch A)
  : World DB Document -> Promise A * World DB Document :=
  fun w => let '(r, w') := body w in (Pending r body 3, w').

(** [bodies.map((body) => f(..))], from left to right. *)
Fixpoint start_each {A} (bodies : list (Fetch A))
  : World DB Document -> list (Promise A) * World DB Document :=
  fun w =>
    match bodies with
    | [] => ([], w)
    | body :: rest =>
        let '(p, w1) := start body w in
        let '(ps, w2) := start_each rest w1 in
        (p :: ps, w2)
    end.

(** The outcome of the try that is out reaches the promise; the error is
    there when the promise rejects at this very step. *)
Definition deliver {A} (p : Promise A)
  : World DB Document -> (Promise A * option Error) * World DB Document :=
  fun w =>
    match p with
    | Settled r => ((Settled r, None), w)
    | Pending (Ok a) _ _ => ((Settled (Ok a), None), w)
    | Pending (Throw err) body (S ahead) =>
        let '(r, w') := body w in ((Pending r body ahead, None), w')
    | Pending (Throw err) _ O => ((Settled (Throw err), Some err), w)
    end.

Fixpoint deliver_nth {A} (j : nat) (ps : list (Promise A))
  : World DB Document -> (list (Promise A) * option Error) * World DB Document :=
  fun w =>
    match ps, j with
    | [], _ => (([], None), w)
    | p :: rest, O =>
        let '((p', now), w') := deliver p w in ((p' :: rest, now), w')
    | p :: rest, S j' =>
        let '((rest', now), w') := deliver_nth j' rest w in ((p :: rest', now), w')
    end.

(** [await p]: the promise runs on, undisturbed, to its end. *)
Fixpoint await_pending {A} (ahead : nat) (body : Fetch A) (r : Result A) : Fetch A :=
  fun w =>
    match r, ahead with
    | Ok a, _ => (Ok a, w)
    | Throw err, O => (Throw err, w)
    | Throw err, S ahead' => let '(r', w') := body w in await_pending ahead' body r' w'
    end.

Definition await {A} (p : Promise A) : Fetch A :=
  match p with
  | Settled r => lift r
  | Pending r body ahead => await_pending ahead body r
  end.

Fixpoint await_all {A} (ps : list (Promise A)) : Fetch (list A) :=
  match ps with
  | [] => ret []
  | p :: rest => a <- await p ;; l <- await_all rest ;; ret (a :: l)
  end.

(** The branches of one attempt. *)
Record Fan := {
  thumbnailsPromise : Promise string;
  promises : list (Promise (DownloadSize Bytes));
  rejected : option Error }.

Definition step (i : nat) (fan : Fan) : World DB Document -> Fan * World DB Document :=
  fun w =>
    match rejected fan, i with
    | Some _, _ => (fan, w)
    | None, O =>
        let '((p', now), w') := deliver (thumbnailsPromise fan) w in
        ({| thumbnailsPromise := p'; promises := promises fan; rejected := now |}, w')
    | None, S j =>
        let '((ps', now), w') := deliver_nth j (promises fan) w in
        ({| thumbnailsPromise := thumbnailsPromise fan; promises := ps';
            rejected := now |}, w')
    end.

Fixpoint run (order : list nat) (fan : Fan) : World DB Document -> Fan * World DB Document :=
  fun w =>
    match order with
    | [] => (fan, w)
    | i :: order' => let '(fan', w') := step i fan w in run order' fan' w'
    end.

(** The promises run on one after the other, until one rejects. *)
Fixpoint wait_each {A} (ps : list (Promise A))
  : World DB Document -> (list (Promise A) * option Error) * World DB Document :=
  fun w =>
    match ps with
    | [] => (([], None), w)
    | p :: rest =>
        match await p w with
        | (Ok a, w1) =>
            let '((rest', now), w2) := wait_each rest w1 in
            ((Settled (Ok a) :: rest', now), w2)
        | (Throw err, w1) => ((Settled (Throw err) :: rest, Some err), w1)
        end
    end.

Definition finish (fan : Fan) : World DB Document -> Fan * World DB Document :=
  fun w =>
    match rejected fan with
    | Some _ => (fan, w)
    | None =>
        match await (thumbnailsPromise fan) w with
        | (Ok thumbnails, w1) =>
            let '((ps, now), w2) := wait_each (promises fan) w1 in
            ({| thumbnailsPromise := Settled (Ok thumbnails); promises := ps;
                rejected := now |}, w2)
        | (Throw err, w1) =>
            ({| thumbnailsPromise := Settled (Throw err); promises := promises fan;
                rejected := Some err |}, w1)
        end
    end.

(** The branches of one attempt, from the calls that start them to the
    moment [Promise.all] settles. *)
Definition details_branches (schedule : Schedule) (args : FetchStreamDetailsArgs)
  : World DB Document -> Fan * World DB Document :=
  fun w =>
    let '(thumbnailsPromise, w1) :=
      start (fetchStreamThumbnails_body {| tha_stream := da_stream args |}) w in
    let '(promises, w2) :=
      start_each (map (fun q => fetchStreamDownloadSize_body
                                  {| dsa_stream := da_stream args;
                                     dsa_qualityId := q_id q |})
                      (qualities (da_stream args))) w1 in
    let '(fan, w3) := run (schedule w)
                          {| thumbnailsPromise := thumbnailsPromise;
                             promises := promises;
                             rejected := None |} w2 in
    finish fan w3.

(** [const [sizes, thumbnails] = await Promise.all([Promise.all(promises),
    thumbnailsPromise])] and the [return]: the reason of the first
    rejection, or the values of all the branches, which [finish] has left
    settled ([join_details_settled]). *)
Definition join_details (fan : Fan) : Fetch (StreamDetails Bytes) :=
  match rejected fan with
  | Some err => throw err
  | None =>
      thumbnails <- await (thumbnailsPromise fan) ;;
      sizes <- await_all (promises fan) ;;
      ret {| thumbnails := thumbnails; sizes := sizes |}
  end.

Definition fetchStreamDetails_body (schedule : Schedule) (args : FetchStreamDetailsArgs)
  : Fetch (StreamDetails Bytes) :=
  fun w =>
    let '(fan, w') := details_branches schedule args w in
    join_details fan w'.

Definition fetchStreamDetails (schedule : Schedule) (args : FetchStreamDetailsArgs)
           (retry : nat)
  : Fetch (StreamDetails Bytes) :=
  retrying (fetchStreamDetails_body schedule args) retry.

(** *** fetchMovieStream, fetchSeriesStream, fetchSeriesEpisodesStream *)

Definition fetchMovieStream_body (args : FetchMovieStreamArgs) : Fetch Stream :=
  data <- getAjaxMovie args
    (data <- ajax_post (GetMovie (msa_id args) (msa_translatorId args) (msa_favsId args)
                                 (msa_isCamrip args) (msa_isAds args)
                                 (msa_isDirector args)) ;;
     if negb (d_success data)
     then throw (UpstreamError
                   (or_string (d_message data)
                      "Unable to get movie stream details. Try again later."))
     else ret data) ;;
  lift (parseStream data).

Definition fetchMovieStream (args : FetchMovieStreamArgs) (retry : nat) : Fetch Stream :=
  retrying (fetchMovieStream_body args) retry.

Definition fetchSeriesStream_body (args : FetchSeriesStreamArgs) : Fetch Stream :=
  data <- ajax_post (GetStream (ssa_id args) (ssa_translatorId args) (ssa_favsId args)
                               (ssa_season args) (ssa_episode args)) ;;
  if negb (d_success data)
  then throw (UpstreamError
                (or_string (d_message data)
                   "Unable to get episode stream details. Try again later."))
  else lift (parseStream data).

Definition fetchSeriesStream (args : FetchSeriesStreamArgs) (retry : nat) : Fetch Stream :=
  retrying (fetchSeriesStream_body args) retry.

(** [season || seasons[0].number]: the right operand is read only when the
    hint is falsy. *)
Definition default_season (hint : option Z) (seasons : list SeasonInfo) : Result Z :=
  match truthy_number hint with
  | Some n => Ok n
  | None =>
      match first seasons "number" with
      | Ok s => Ok (ps_number s)
      | Throw e => Throw e
      end
  end.

(** [episode || seasons[0].episodes[0].number] *)
Definition default_episode (hint : option Z) (seasons : list SeasonInfo) : Result Z :=
  match truthy_number hint with
  | Some n => Ok n
  | None =>
      match first seasons "episodes" with
      | Ok s =>
          match first (ps_episodes s) "number" with
          | Ok e => Ok (pe_number e)
          | Throw e => Throw e
          end
      | Throw e => Throw e
      end
  end.

Definition fetchSeriesEpisodesStream_body (args : FetchSeriesEpisodesStreamArgs)
  : Fetch SeriesEpisodesStream :=
  data <- ajax_post (GetEpisodes (esa_id args) (esa_translatorId args) (esa_favsId args)
                                 (esa_season args) (esa_episode args)) ;;
  if negb (d_success data)
  then throw (UpstreamError
                (or_string (d_message data)
                   "Unable to get episodes list. Try again later."))
  else
    seasons <- lift (parseStreamSeasons (d_seasons data) (d_episodes data)) ;;
    stream <- lift (parseStream data) ;;
    season <- lift (default_season (esa_season args) seasons) ;;
    episode <- lift (default_episode (esa_episode args) seasons) ;;
    ret {| r_seasons := seasons;
           r_stream := stream;
           r_streamFor := {| sf_season := season; sf_episode := episode |} |}.

Definition fetchSeriesEpisodesStream (args : FetchSeriesEpisodesStreamArgs) (retry : nat)
  : Fetch SeriesEpisodesStream :=
  retrying (fetchSeriesEpisodesStream_body args) retry.
(** *** fetchItemMovie, fetchItemSeries, fetchItem *)

Definition with_ogType (ogType : OgType) (baseItem : BaseItem) : BaseItem :=
  {| b_id := b_id baseItem; b_favsId := b_favsId baseItem;
     b_ogType := ogType; b_translators := b_translators baseItem |}.

Definition fetchItemMovie_body (args : FetchItemMovieArgs) : Fetch ItemMovie :=
  let baseItem := ima_baseItem args in
  translator <- lift (found (ima_translator args) "id") ;;
  stream <- fetchMovieStream
              {| msa_id := b_id baseItem;
                 msa_translatorId := tr_id translator;
                 msa_favsId := b_favsId baseItem;
                 msa_isCamrip := tr_isCamrip translator;
                 msa_isAds := tr_isAds translator;
                 msa_isDirector := tr_isDirector translator |} 0 ;;
  let streams :=
    map (fun t => {| ms_translatorId := tr_id t;
                     ms_stream := if Z.eqb (tr_id t) (tr_id translator)
                                  then Some stream else None |})
        (b_translators baseItem) in
  ret {| m_base := with_ogType VideoMovie baseItem; m_streams := streams |}.

Definition fetchItemMovie (args : FetchItemMovieArgs) (retry : nat) : Fetch ItemMovie :=
  retrying (fetchItemMovie_body args) retry.

(** [seasons.map((s) => ({ .., episodes: s.episodes.map((e) => ({ ..,
    stream: s.number === streamFor.season && e.number === streamFor.episode
    ? stream : null })) }))], written out in fetchItemSeries and again in
    fetchSeriesTranslator. *)
Definition tree_of (seasons : list SeasonInfo) (stream : Stream) (streamFor : StreamFor)
  : list ItemSeriesSeasonStream :=
  map (fun s =>
         {| s_number := ps_number s;
            s_title := ps_title s;
            s_episodes :=
              map (fun e =>
                     {| e_number := pe_number e;
                        e_title := pe_title e;
                        e_stream :=
                          if Z.eqb (ps_number s) (sf_season streamFor)
                             && Z.eqb (pe_number e) (sf_episode streamFor)
                          then Some stream else None |})
                  (ps_episodes s) |})
      seasons.

Definition fetchItemSeries_body (args : FetchItemSeriesArgs) : Fetch ItemSeries :=
  let baseItem := isa_baseItem args in
  episodesInfo <- lift (parseItemDocumentEpisodes (isa_document args)) ;;
  translator <- lift (found (isa_translator args) "id") ;;
  res <- fetchSeriesEpisodesStream
           {| esa_id := b_id baseItem;
              esa_translatorId := tr_id translator;
              esa_favsId := b_favsId baseItem;
              esa_season := isa_season args;
              esa_episode := isa_episode args |} 0 ;;
  let streams :=
    map (fun t => {| ss_translatorId := tr_id t;
                     ss_seasons :=
                       if Z.eqb (tr_id t) (tr_id translator)
                       then Some (tree_of (r_seasons res) (r_stream res) (r_streamFor res))
                       else None |})
        (b_translators baseItem) in
  ret {| se_base := with_ogType VideoTvSeries baseItem;
         se_episodesInfo := episodesInfo;
         se_streams := streams |}.

Definition fetchItemSeries (args : FetchItemSeriesArgs) (retry : nat) : Fetch ItemSeries :=
  retrying (fetchItemSeries_body args) retry.

Definition item_uri (fullId : FullId) : string :=
  "/" ++ f_typeId fullId ++ "/" ++ f_genreId fullId ++ "/" ++ f_slug fullId ++ ".html".

(** [translators.find((t) => t.id === translatorId) || translators[0]] *)
Definition pick_translator (translatorId : option Z) (translators : list Translator)
  : option Translator :=
  match find (fun t => strict_eq (tr_id t) translatorId) translators with
  | Some t => Some t
  | None => head translators
  end.

Definition fetchItem_body (args : FetchItemArgs) : Fetch Item :=
  let fullId := ia_fullId args in
  data <- getItem (f_id fullId) (html_get (GetDocument (item_uri fullId))) ;;
  baseItem <- lift (parseItemDocument data fullId) ;;
  let translator := pick_translator (ia_translatorId args) (b_translators baseItem) in
  match b_ogType baseItem with
  | VideoMovie =>
      item <- fetchItemMovie {| ima_baseItem := baseItem; ima_translator := translator |} 0 ;;
      ret (Movie item)
  | VideoTvSeries =>
      item <- fetchItemSeries {| isa_baseItem := baseItem; isa_translator := translator;
                                 isa_document := data; isa_season := ia_season args;
                                 isa_episode := ia_episode args |} 0 ;;
      ret (Series item)
  end.

Definition fetchItem (args : FetchItemArgs) (retry : nat) : Fetch Item :=
  retrying (fetchItem_body args) retry.

(** *** fetchMovieTranslator *)

Definition fetchMovieTranslator_body (args : FetchMovieTranslatorArgs)
  : Fetch FetchMovieTranslatorResponse :=
  let item := mta_item args in
  let translatorId := mta_translatorId args in
  entry <- lift (found (find (fun s => Z.eqb (ms_translatorId s) translatorId)
                             (m_streams item)) "stream") ;;
  match ms_stream entry with
  | Some foundStream => ret {| stream := None |}
  | None =>
      translator <- lift (found (find (fun t => Z.eqb (tr_id t) translatorId)
                                      (b_translators (m_base item))) "isCamrip") ;;
      stream <- fetchMovieStream
                  {| msa_id := b_id (m_base item);
                     msa_translatorId := translatorId;
                     msa_favsId := b_favsId (m_base item);
                     msa_isCamrip := tr_isCamrip translator;
                     msa_isAds := tr_isAds translator;
                     msa_isDirector := tr_isDirector translator |} 0 ;;
      ret {| stream := Some stream |}
  end.

Definition fetchMovieTranslator (args : FetchMovieTranslatorArgs) (retry : nat)
  : Fetch FetchMovieTranslatorResponse :=
  retrying (fetchMovieTranslator_body args) retry.

(** *** fetchSeriesTranslator

    [locate] is the search for the season and the episode with the reset
    to the first season; [clamp] adds the reset to the season's first
    episode. Both return the [stateTo] they leave behind. *)

Definition locate (seasons : list ItemSeriesSeasonStream) (stateTo : State)
  : Result (ItemSeriesSeasonStream * State * option ItemSeriesEpisodeStream) :=
  match find (fun s => strict_eq (s_number s) (season stateTo)) seasons with
  | None =>
      match first seasons "number" with
      | Throw err => Throw err
      | Ok s =>
          match first (s_episodes s) "number" with
          | Throw err => Throw err
          | Ok e =>
              Ok (s, {| season := Some (s_number s); episode := Some (e_number e) |},
                  Some e)
          end
      end
  | Some s =>
      Ok (s, stateTo,
          find (fun e => strict_eq (e_number e) (episode stateTo)) (s_episodes s))
  end.

Definition clamp (seasons : list ItemSeriesSeasonStream) (stateTo : State)
  : Result (State * ItemSeriesEpisodeStream) :=
  match locate seasons stateTo with
  | Throw err => Throw err
  | Ok (s, stateTo, Some e) => Ok (stateTo, e)
  | Ok (s, stateTo, None) =>
      match first (s_episodes s) "number" with
      | Throw err => Throw err
      | Ok e => Ok ({| season := season stateTo; episode := Some (e_number e) |}, e)
      end
  end.

(** The tree the switch works on, and [initial] when it was just fetched. *)
Definition known_or_fetched (item : ItemSeries) (translatorId : Z)
           (seasons : option (list ItemSeriesSeasonStream))
  : Fetch (list ItemSeriesSeasonStream * option (list ItemSeriesSeasonStream)) :=
  match seasons with
  | Some seasons => ret (seasons, None)
  | None =>
      res <- fetchSeriesEpisodesStream
               {| esa_id := b_id (se_base item);
                  esa_translatorId := translatorId;
                  esa_favsId := b_favsId (se_base item);
                  esa_season := None;
                  esa_episode := None |} 0 ;;
      let seasons := tree_of (r_seasons res) (r_stream res) (r_streamFor res) in
      ret (seasons, Some seasons)
  end.

Definition fetchSeriesTranslator_body (args : FetchSeriesTranslatorArgs)
  : Fetch FetchSeriesTranslatorResponse :=
  let item := sta_item args in
  let translatorId := sta_translatorId args in
  let stateTo := {| season := season (sta_state args);
                    episode := episode (sta_state args) |} in
  entry <- lift (found (find (fun s => Z.eqb (ss_translatorId s) translatorId)
                             (se_streams item)) "seasons") ;;
  tree <- known_or_fetched item translatorId (ss_seasons entry) ;;
  let seasons := fst tree in
  let initial := snd tree in
  target <- lift (clamp seasons stateTo) ;;
  let stateTo := fst target in
  let leaf := snd target in   (* the object held by [episode] *)
  next <- match e_stream leaf with
          | Some _ => ret None
          | None =>
              stream <- fetchSeriesStream
                          {| ssa_id := b_id (se_base item);
                             ssa_translatorId := translatorId;
                             ssa_favsId := b_favsId (se_base item);
                             ssa_season := season stateTo;
                             ssa_episode := episode stateTo |} 0 ;;
              ret (Some {| n_stream := stream; n_streamFor := stateTo |})
          end ;;
  ret {| stateTo := stateTo; initial := initial; next := next |}.

Definition fetchSeriesTranslator (args : FetchSeriesTranslatorArgs) (retry : nat)
  : Fetch FetchSeriesTranslatorResponse :=
  retrying (fetchSeriesTranslator_body args) retry.

(** *** fetchTranslator *)

Definition fetchTranslator_body (args : FetchTranslatorArgs)
  : Fetch FetchTranslatorResponse :=
  match ta_item args with
  | Series item =>
      r <- fetchSeriesTranslator {| sta_item := item;
                                    sta_translatorId := ta_translatorId args;
                                    sta_state := ta_state args |} 0 ;;
      ret (SeriesSwitch r)
  | Movie item =>
      r <- fetchMovieTranslator {| mta_item := item;
                                   mta_translatorId := ta_translatorId args |} 0 ;;
      ret (MovieSwitch r)
  end.

Definition fetchTranslator (args : FetchTranslatorArgs) (retry : nat)
  : Fetch FetchTranslatorResponse :=
  retrying (fetchTranslator_body args) retry.

(** The exported functions, each with the body its retry wraps. *)
Inductive wrapped : forall {A : Type}, Fetch A -> (nat -> Fetch A) -> Prop :=
| wrapped_fetchSearch args : wrapped (fetchSearch_body args) (fetchSearch args)
| wrapped_fetchItemMovie args : wrapped (fetchItemMovie_body args) (fetchItemMovie args)
| wrapped_fetchItemSeries args : wrapped (fetchItemSeries_body args) (fetchItemSeries args)
| wrapped_fetchItem args : wrapped (fetchItem_body args) (fetchItem args)
| wrapped_fetchStreamDownloadSize args :
    wrapped (fetchStreamDownloadSize_body args) (fetchStreamDownloadSize args)
| wrapped_fetchStreamThumbnails args :
    wrapped (fetchStreamThumbnails_body args) (fetchStreamThumbnails args)
| wrapped_fetchStreamDetails schedule args :
    wrapped (fetchStreamDetails_body schedule args) (fetchStreamDetails schedule args)
| wrapped_fetchMovieStream args :
    wrapped (fetchMovieStream_body args) (fetchMovieStream args)
| wrapped_fetchSeriesStream args :
    wrapped (fetchSeriesStream_body args) (fetchSeriesStream args)
| wrapped_fetchSeriesEpisodesStream args :
    wrapped (fetchSeriesEpisodesStream_body args) (fetchSeriesEpisodesStream args)
| wrapped_fetchMovieTranslator args :
    wrapped (fetchMovieTranslator_body args) (fetchMovieTranslator args)
| wrapped_fetchSeriesTranslator args :
    wrapped (fetchSeriesTranslator_body args) (fetchSeriesTranslator args)
| wrapped_fetchTranslator args :
    wrapped (fetchTranslator_body args) (fetchTranslator args).
End Api.
Arguments Settled {H A} r.
Arguments Pending {H A} r body ahead.

(** ** A small instance, for running the functions

    Modelled from the spec: [./database] is not part of this module; [memo]
    is the memoizing cache of the specification, "get(key, compute)" where
    compute runs only on a miss and its result is stored under the key. The
    keys are the item id for documents, (item id, translator id) for movie
    payloads, the quality's address for sizes and the sheet's address for
    thumbnails. The parsers are stand-ins that know one provider page. *)

Module Demo.
Record Db := mkDb {
  items : gmap Z string;
  movies : gmap (Z * Z) AjaxData;
  stored_sizes : gmap (string * Z) Z;
  sheets : gmap string string }.

Definition empty_db : Db := mkDb ∅ ∅ ∅ ∅.

Definition with_db (f : Db -> Db) (w : World Db string) : World Db string :=
  mkWorld (docs w) (posts w) (gets w) (heads w) (log w) (f (db w)).

Definition memo {V} (cached : Db -> option V) (store : V -> Db -> Db)
           (compute : M (World Db string) V) : M (World Db string) V :=
  fun w =>
    match cached (db w) with
    | Some v => (Ok v, w)
    | None =>
        match compute w with
        | (Ok v, w') => (Ok v, with_db (store v) w')
        | (Throw e, w') => (Throw e, w')
        end
    end.

Definition season_of (number : Z) (episodes : list Z) : SeasonInfo :=
  {| ps_number := number; ps_title := "Season";
     ps_episodes := map (fun n => {| pe_number := n; pe_title := "Episode" |}) episodes |}.

(** The provider's page: seasons 2, 3 and 5 in that order, season 2 with
    episodes 10 and 11. *)
Definition page : list SeasonInfo :=
  [season_of 2 [10; 11]; season_of 3 [1; 2]; season_of 5 [1]].

(** Another page, whose first season and first episode are not the smallest. *)
Definition unsorted_page : list SeasonInfo :=
  [season_of 5 [8; 3]; season_of 1 [1; 2]].

Definition demo_parseStreamSeasons (seasons episodes : string)
  : Result (list SeasonInfo) :=
  if String.eqb seasons "2,3,5" then Ok page
  else if String.eqb seasons "5,1" then Ok unsorted_page
  else if String.eqb seasons "" then Ok []
  else Throw (ParseError "seasons").

Definition stream_at (url : string) : Stream :=
  {| qualities := [ {| q_id := 360; q_downloadUrl := url ++ "/360.mp4" |};
                    {| q_id := 720; q_downloadUrl := url ++ "/720.mp4" |} ];
     thumbnailsUrl := url ++ "/thumbnails" |}.

Definition demo_parseStream (data : AjaxData) : Result Stream :=
  Ok (stream_at (d_url data)).

(** Reads a run of decimal digits. *)
Fixpoint digits (s : string) (acc : Z) : Z :=
  match s with
  | EmptyString => acc
  | String c rest => digits rest (10 * acc + (Z.of_nat (Ascii.nat_of_ascii c) - 48))
  end.

#[export] Instance imports : Imports := {|
  Document := string;
  SearchResult := list string;
  EpisodesInfo := unit;
  Bytes := Z;
  DB := Db;
  parseSearchDocument := fun data => Ok [data];
  parseItemDocument := fun data fullId =>
    Ok {| b_id := f_id fullId; b_favsId := data; b_ogType := VideoMovie;
          b_translators := [] |};
  parseItemDocumentEpisodes := fun _ => Ok tt;
  parseStream := demo_parseStream;
  parseStreamSeasons := demo_parseStreamSeasons;
  Number := fun s => digits s 0;
  bytesToStr := fun size => if Z.ltb size 1024 then "B" else "KB";
  getItem := fun id =>
    memo (fun d => items d !! id)
         (fun v d => mkDb (<[id := v]> (items d)) (movies d) (stored_sizes d) (sheets d));
  getAjaxMovie := fun args =>
    let key := (msa_id args, msa_translatorId args) in
    memo (fun d => movies d !! key)
         (fun v d => mkDb (items d) (<[key := v]> (movies d)) (stored_sizes d) (sheets d));
  getStreamSize := fun args =>
    let key := (thumbnailsUrl (dsa_stream args), dsa_qualityId args) in
    memo (fun d => stored_sizes d !! key)
         (fun v d => mkDb (items d) (movies d) (<[key := v]> (stored_sizes d)) (sheets d));
  getStreamThumbnail := fun args =>
    let key := thumbnailsUrl (tha_stream args) in
    memo (fun d => sheets d !! key)
         (fun v d => mkDb (items d) (movies d) (stored_sizes d) (<[key := v]> (sheets d)))
|}.

(** A world with the given replies to [ajax.post], nothing sent yet and an
    empty database. *)
Definition upstream (replies : list (Result AjaxData)) : World Db string :=
  mkWorld [] replies [] [] [] empty_db.

Definition payload (url : string) : AjaxData :=
  {| d_success := true; d_message := None;
     d_seasons := "2,3,5"; d_episodes := ""; d_url := url |}.

Definition unsorted_payload (url : string) : AjaxData :=
  {| d_success := true; d_message := None;
     d_seasons := "5,1"; d_episodes := ""; d_url := url |}.

Definition refusal : AjaxData :=
  {| d_success := false; d_message := Some "Removed";
     d_seasons := ""; d_episodes := ""; d_url := "" |}.

Definition base : BaseItem :=
  {| b_id := 1; b_favsId := "favs"; b_ogType := VideoTvSeries;
     b_translators := [ {| tr_id := 7; tr_isCamrip := false; tr_isAds := false;
                           tr_isDirector := false |} ] |}.

Definition played : Stream :=
  {| qualities := [ {| q_id := 360; q_downloadUrl := "cdn/a/360.mp4" |} ];
     thumbnailsUrl := "cdn/a/thumbnails" |}.

(** The tree of the page where only the leaf (3, 1) holds a stream. *)
Definition tree : list ItemSeriesSeasonStream :=
  tree_of page played {| sf_season := 3; sf_episode := 1 |}.

Definition series : ItemSeries :=
  {| se_base := base; se_episodesInfo := tt;
     se_streams := [ {| ss_translatorId := 7; ss_seasons := Some tree |} ] |}.

Definition switch (season episode : Z) : FetchSeriesTranslatorArgs :=
  {| sta_item := series; sta_translatorId := 7;
     sta_state := {| season := Some season; episode := Some episode |} |}.

(** The same series before translator 7 was fetched. *)
Definition unfetched : ItemSeries :=
  {| se_base := base; se_episodesInfo := tt;
     se_streams := [ {| ss_translatorId := 7; ss_seasons := None |} ] |}.

Definition first_switch (season episode : Z) : FetchSeriesTranslatorArgs :=
  {| sta_item := unfetched; sta_translatorId := 7;
     sta_state := {| season := Some season; episode := Some episode |} |}.

Definition leaf (season episode : Z) : FetchSeriesStreamArgs :=
  {| ssa_id := 1; ssa_translatorId := 7; ssa_favsId := "favs";
     ssa_season := Some season; ssa_episode := Some episode |}.

Definition episodes (season episode : option Z) : FetchSeriesEpisodesStreamArgs :=
  {| esa_id := 1; esa_translatorId := 7; esa_favsId := "favs";
     esa_season := season; esa_episode := episode |}.

(** The upstream times out, then refuses, then answers. *)
Definition flaky : World Db string :=
  upstream [Throw timeout; Ok refusal; Ok (payload "cdn/x")].

(** A movie with one translator whose slot is [stream]. *)
Definition movie (stream : option Stream) : ItemMovie :=
  {| m_base := base;
     m_streams := [ {| ms_translatorId := 7; ms_stream := stream |} ] |}.

Definition movie_switch_to (item : ItemMovie) : FetchMovieTranslatorArgs :=
  {| mta_item := item; mta_translatorId := 7 |}.


Definition details : FetchStreamDetailsArgs := {| da_stream := stream_at "cdn/a" |}.

(** The replies reach the three branches in turn: thumbnails, first size,
    second size, four rounds. *)
Definition in_turn : World Db string -> list nat :=
  fun _ => [0; 1; 2; 0; 1; 2; 0; 1; 2; 0; 1; 2]%nat.

(** The first size branch gets its four replies before anything else. *)
Definition first_size_ahead : World Db string -> list nat :=
  fun _ => [1; 1; 1; 1]%nat.

(** The thumbnails arrive; the first four size requests get a bad response,
    the next two succeed. *)
Definition four_bad_sizes : World Db string :=
  mkWorld [] [] [Ok "sheet"]
          (repeat (Throw (TransportError "ERR_BAD_RESPONSE")) 4 ++
           [Ok {| h_Content_Length := Some "1000"; h_content_length := None |};
            Ok {| h_Content_Length := Some "2048"; h_content_length := None |}])
          [] empty_db.

(** Every thumbnails request times out and every size request gets a bad
    response. *)
Definition all_failing : World Db string :=
  mkWorld [] [] [] (repeat (Throw (TransportError "ERR_BAD_RESPONSE")) 32) [] empty_db.
End Demo.

(** ** Vocabulary of the properties *)

Section Vocabulary.
Context `{Imports}.

(** The season numbered [n], the first in provider order. *)
Definition season_numbered (n : JsNumber) (seasons : list ItemSeriesSeasonStream)
  : option ItemSeriesSeasonStream :=
  find (fun s => strict_eq (s_number s) n) seasons.

(** The episode numbered [n] of a season. *)
Definition episode_numbered (n : JsNumber) (s : ItemSeriesSeasonStream)
  : option ItemSeriesEpisodeStream :=
  find (fun e => strict_eq (e_number e) n) (s_episodes s).

(** The leaf a state names. *)
Definition leaf_at (seasons : list ItemSeriesSeasonStream) (st : State)
  : option ItemSeriesEpisodeStream :=
  match season_numbered (season st) seasons with
  | Some s => episode_numbered (episode st) s
  | None => None
  end.


(** The entry of the target translator among the item's streams. *)
Definition entry_of (args : FetchSeriesTranslatorArgs) : option ItemSeriesStream :=
  find (fun s => Z.eqb (ss_translatorId s) (sta_translatorId args))
       (se_streams (sta_item args)).

(** The tree a switch worked on: the one the item already had, or else the
    one it fetched and reports as [initial]. *)
Definition tree_used (args : FetchSeriesTranslatorArgs)
           (res : FetchSeriesTranslatorResponse)
  : option (list ItemSeriesSeasonStream) :=
  match entry_of args with
  | Some entry =>
      match ss_seasons entry with
      | Some seasons => Some seasons
      | None => initial res
      end
  | None => None
  end.

(** The arguments of the tree fetch of a switch: no season or episode hint. *)
Definition tree_request (args : FetchSeriesTranslatorArgs) : FetchSeriesEpisodesStreamArgs :=
  {| esa_id := b_id (se_base (sta_item args));
     esa_translatorId := sta_translatorId args;
     esa_favsId := b_favsId (se_base (sta_item args));
     esa_season := None;
     esa_episode := None |}.

(** The arguments of the leaf fetch of a switch. *)
Definition leaf_fetch (args : FetchSeriesTranslatorArgs) (st : State) : FetchSeriesStreamArgs :=
  {| ssa_id := b_id (se_base (sta_item args));
     ssa_translatorId := sta_translatorId args;
     ssa_favsId := b_favsId (se_base (sta_item args));
     ssa_season := season st;
     ssa_episode := episode st |}.

(** The request for the stream of one leaf. *)
Definition leaf_request (args : FetchSeriesTranslatorArgs) (st : State) : Request :=
  GetStream (b_id (se_base (sta_item args))) (sta_translatorId args)
            (b_favsId (se_base (sta_item args))) (season st) (episode st).

(** The requests for a stream leaf among those sent. *)
Definition stream_fetches (w : World DB Document) : list Request :=
  filter (fun r => is_get_stream r = true) (log w).

(** Every stream a switch result carries. *)
Definition tree_streams (seasons : list ItemSeriesSeasonStream) : list Stream :=
  flat_map (fun s => flat_map (fun e => match e_stream e with
                                        | Some x => [x]
                                        | None => []
                                        end) (s_episodes s)) seasons.

Definition response_streams (res : FetchSeriesTranslatorResponse) : list Stream :=
  match next res with Some n => [n_stream n] | None => [] end
  ++ match initial res with Some seasons => tree_streams seasons | None => [] end.

(** The slot of the target translator among a movie's streams, and the
    translator among the movie's translators. *)
Definition movie_entry (args : FetchMovieTranslatorArgs) : option ItemMovieStream :=
  find (fun s => Z.eqb (ms_translatorId s) (mta_translatorId args))
       (m_streams (mta_item args)).

Definition movie_translator (args : FetchMovieTranslatorArgs) : option Translator :=
  find (fun t => Z.eqb (tr_id t) (mta_translatorId args))
       (b_translators (m_base (mta_item args))).

(** The invariant of a movie item: one stream slot per translator, in the
    translators' order, as fetchItemMovie builds them. *)
Definition one_slot_per_translator (item : ItemMovie) : Prop :=
  map ms_translatorId (m_streams item) = map tr_id (b_translators (m_base item)).

(** The request of a tree fetch. *)
Definition episodes_request (args : FetchSeriesEpisodesStreamArgs) : Request :=
  GetEpisodes (esa_id args) (esa_translatorId args) (esa_favsId args)
              (esa_season args) (esa_episode args).

(** The arguments with which a movie switch asks for a stream. *)
Definition movie_request (args : FetchMovieTranslatorArgs) (translator : Translator)
  : FetchMovieStreamArgs :=
  {| msa_id := b_id (m_base (mta_item args));
     msa_translatorId := mta_translatorId args;
     msa_favsId := b_favsId (m_base (mta_item args));
     msa_isCamrip := tr_isCamrip translator;
     msa_isAds := tr_isAds translator;
     msa_isDirector := tr_isDirector translator |}.

(** A promise that has not rejected, and one that has fulfilled. *)
Definition not_rejected {A} (p : Promise A) : Prop :=
  forall e, p <> Settled (Throw e).

Definition fulfilled {A} (p : Promise A) : Prop :=
  exists a, p = Settled (Ok a).

(** The first rejection that a fan keeps is the rejection of one of its
    branches, and it keeps one as soon as a branch has rejected. *)
Definition fan_consistent (fan : Fan) : Prop :=
  match rejected fan with
  | None => not_rejected (thumbnailsPromise fan) /\ Forall not_rejected (promises fan)
  | Some e => thumbnailsPromise fan = Settled (Throw e) \/
              In (Settled (Throw e)) (promises fan)
  end.

(** The fan once [Promise.all] has settled: a branch rejected, or all
    fulfilled. *)
Definition fan_settled (fan : Fan) : Prop :=
  match rejected fan with
  | None => fulfilled (thumbnailsPromise fan) /\ Forall fulfilled (promises fan)
  | Some e => thumbnailsPromise fan = Settled (Throw e) \/
              In (Settled (Throw e)) (promises fan)
  end.

End Vocabulary.

(** ** Vocabulary of the further properties *)

(** The slot fetchItemMovie builds for a translator, and the entry
    fetchItemSeries builds. *)
Definition movie_slot (translator : Translator) (stream : Stream) (t : Translator)
  : ItemMovieStream :=
  {| ms_translatorId := tr_id t;
     ms_stream := if Z.eqb (tr_id t) (tr_id translator) then Some stream else None |}.

Definition series_entry (translator : Translator) (tree : list ItemSeriesSeasonStream)
           (t : Translator) : ItemSeriesStream :=
  {| ss_translatorId := tr_id t;
     ss_seasons := if Z.eqb (tr_id t) (tr_id translator) then Some tree else None |}.

(** The message of a refusal: the upstream's, or the default when it sent
    none or an empty one. *)
Definition refusal_of (data : AjaxData) (default : string) : Error :=
  UpstreamError (or_string (d_message data) default).

(** A size that belongs to a quality: it carries the quality's id and the
    text of its number of bytes. *)
Definition sized `{Imports} (q : Quality) (z : DownloadSize Bytes) : Prop :=
  z_id z = q_id q /\ z_downloadSizeStr z = bytesToStr (z_downloadSize z).

(** A size branch of a quality: what it fulfils with, now or later, is a
    size of that quality. *)
Definition promise_sized `{Imports} (q : Quality) (p : Promise (DownloadSize Bytes))
  : Prop :=
  match p with
  | Settled r => forall z, r = Ok z -> sized q z
  | Pending r body _ =>
      (forall z, r = Ok z -> sized q z) /\
      (forall w z w', body w = (Ok z, w') -> sized q z)
  end.

(** ** More inputs for running the functions *)

Module More.
Import Demo.

Definition voice (id : Z) : Translator :=
  {| tr_id := id; tr_isCamrip := false; tr_isAds := false; tr_isDirector := false |}.

(** A base item with two translators, 7 and 9. *)
Definition two_voices (ogType : OgType) : BaseItem :=
  {| b_id := 1; b_favsId := "favs"; b_ogType := ogType;
     b_translators := [voice 7; voice 9] |}.

Definition movie_for (id : Z) : FetchItemMovieArgs :=
  {| ima_baseItem := two_voices VideoMovie; ima_translator := Some (voice id) |}.

Definition series_for (id : Z) (season episode : option Z) : FetchItemSeriesArgs :=
  {| isa_baseItem := two_voices VideoTvSeries; isa_translator := Some (voice id);
     isa_document := "document"; isa_season := season; isa_episode := episode |}.

(** The movie and the series assembled for translator 7 from the answer
    [payload "cdn/m"]. *)
Definition assembled_movie_7 : ItemMovie :=
  {| m_base := two_voices VideoMovie;
     m_streams := [ {| ms_translatorId := 7; ms_stream := Some (stream_at "cdn/m") |};
                    {| ms_translatorId := 9; ms_stream := None |} ] |}.

Definition assembled_series_7 (streamFor : StreamFor) : ItemSeries :=
  {| se_base := two_voices VideoTvSeries;
     se_episodesInfo := tt;
     se_streams := [ {| ss_translatorId := 7;
                        ss_seasons := Some (tree_of page (stream_at "cdn/m") streamFor) |};
                     {| ss_translatorId := 9; ss_seasons := None |} ] |}.

(** The series of the instance with the tree of translator 7 known and
    empty. *)
Definition hollow : ItemSeries :=
  {| se_base := base; se_episodesInfo := tt;
     se_streams := [ {| ss_translatorId := 7; ss_seasons := Some [] |} ] |}.

Definition switch_on (item : ItemSeries) (translatorId season episode : Z)
  : FetchSeriesTranslatorArgs :=
  {| sta_item := item; sta_translatorId := translatorId;
     sta_state := {| season := Some season; episode := Some episode |} |}.

(** A refusal without a message worth showing. *)
Definition silent_refusal : AjaxData :=
  {| d_success := false; d_message := Some "";
     d_seasons := ""; d_episodes := ""; d_url := "" |}.

(** The thumbnails and both sizes arrive. *)
Definition all_sizes : World Db string :=
  mkWorld [] [] [Ok "sheet"]
          [Ok {| h_Content_Length := Some "1000"; h_content_length := None |};
           Ok {| h_Content_Length := None; h_content_length := Some "2048" |}]
          [] empty_db.

(** The instance with a document parser that finds the two translators and
    tells films from series by the type of the address. *)
Definition catalogue : Imports := {|
  Document := string;
  SearchResult := list string;
  EpisodesInfo := unit;
  Bytes := Z;
  DB := Db;
  parseSearchDocument := fun data => Ok [data];
  parseItemDocument := fun data fullId =>
    Ok (two_voices (if String.eqb (f_typeId fullId) "films"
                    then VideoMovie else VideoTvSeries));
  parseItemDocumentEpisodes := fun _ => Ok tt;
  parseStream := demo_parseStream;
  parseStreamSeasons := demo_parseStreamSeasons;
  Number := fun s => digits s 0;
  bytesToStr := fun size => if Z.ltb size 1024 then "B" else "KB";
  getItem := @getItem imports;
  getAjaxMovie := @getAjaxMovie imports;
  getStreamSize := @getStreamSize imports;
  getStreamThumbnail := @getStreamThumbnail imports
|}.

Definition film : FetchItemArgs :=
  {| ia_fullId := {| f_typeId := "films"; f_genreId := "drama"; f_slug := "1-film";
                     f_id := 1 |};
     ia_translatorId := Some 9; ia_season := None; ia_episode := None |}.

(** The page of the film arrives, then its stream. *)
Definition film_upstream : World Db string :=
  mkWorld [Ok "page"] [Ok (payload "cdn/m")] [] [] [] empty_db.
End More.

(** * Properties *)

Open Scope list_scope.

(** ** The retry wrapper *)

Section RetryFacts.
Context {W A : Type}.
Implicit Types (body : M W A) (w : W).

(** The recursive equation of the source: run the body; on an exception
    call [f(args, retry + 1)] when [retry < 3], else rethrow. *)
Lemma retrying_unfold body retry w :
  retrying body retry w =
  match body w with
  | (Ok a, w') => (Ok a, w')
  | (Throw err, w') =>
      if (retry <? 3)%nat then retrying body (S retry) w' else (Throw err, w')
  end.
Proof.
  unfold retrying.
  destruct (Nat.ltb_spec retry 3) as [Hlt | Hge].
  - replace (3 - retry)%nat with (S (3 - S retry)) by lia.
    simpl. destruct (body w) as [[a | err] w']; reflexivity.
  - replace (3 - retry)%nat with 0%nat by lia.
    simpl. destruct (body w) as [[a | err] w']; reflexivity.
Qed.

Lemma world_after_S body n w :
  world_after body (S n) w = snd (body (world_after body n w)).
Proof.
  revert w. induction n as [| n IH]; intros w; [reflexivity |].
  change (world_after body (S (S n)) w) with (world_after body (S n) (snd (body w))).
  rewrite IH. reflexivity.
Qed.

(** [k] failed attempts, then an attempt that succeeds or is the last one
    allowed: the loop ends with the outcome of that attempt, in the world
    that [k + 1] runs of the body leave. *)
Lemma retry_loop_run body left k :
  forall w r,
    (k <= left)%nat ->
    (forall i, (i < k)%nat -> failed (outcome_at body i w)) ->
    outcome_at body k w = r ->
    succeeded r \/ k = left ->
    retry_loop left body w = (r, world_after body (S k) w).
Proof.
  revert left. induction k as [| k IH]; intros left w r Hle Hfail Hout Hlast.
  - unfold outcome_at in Hout. simpl in Hout. simpl world_after.
    destruct left as [| left]; simpl;
      destruct (body w) as [[a | err] w'] eqn:E; simpl in *; subst r;
      try reflexivity.
    destruct Hlast as [[] | Heq]; discriminate Heq.
  - destruct left as [| left]; [lia |].
    assert (H0 : failed (outcome_at body 0 w)) by (apply Hfail; lia).
    unfold outcome_at in H0. simpl in H0.
    change (world_after body (S (S k)) w)
      with (world_after body (S k) (snd (body w))).
    simpl retry_loop.
    destruct (body w) as [[a | err] w'] eqn:E; simpl in *; [contradiction |].
    apply IH.
    + lia.
    + intros i Hi. specialize (Hfail (S i) ltac:(lia)).
      unfold outcome_at in *. simpl in Hfail. rewrite E in Hfail. exact Hfail.
    + unfold outcome_at in *. simpl in Hout. rewrite E in Hout. exact Hout.
    + destruct Hlast as [Hs | Heq]; [left; exact Hs | right; lia].
Qed.

Lemma counting_world_after body n w c :
  world_after (counting body) n (w, c) = (world_after body n w, (c + n)%nat).
Proof.
  revert w c. induction n as [| n IH]; intros w c; simpl.
  - f_equal. lia.
  - unfold counting at 2. simpl. destruct (body w) as [r w'] eqn:E. simpl.
    rewrite IH. f_equal. lia.
Qed.

Lemma counting_outcome_at body i w c :
  outcome_at (counting body) i (w, c) = outcome_at body i w.
Proof.
  unfold outcome_at. rewrite counting_world_after.
  unfold counting. simpl. destruct (body (world_after body i w)); reflexivity.
Qed.

(** A relation between worlds that every run of the body respects and that
    composes is respected by the wrapped function. *)
Lemma retry_loop_preserves (R : W -> W -> Prop) body :
  (forall w1 w2 w3, R w1 w2 -> R w2 w3 -> R w1 w3) ->
  (forall w r w', body w = (r, w') -> R w w') ->
  forall left w r w', retry_loop left body w = (r, w') -> R w w'.
Proof.
  intros Htrans Hbody. induction left as [| left IH]; intros w r w' Hrun; simpl in Hrun.
  - destruct (body w) as [[a | err] w1] eqn:E; inversion Hrun; subst; eauto.
  - destruct (body w) as [[a | err] w1] eqn:E.
    + inversion Hrun; subst; eauto.
    + eapply Htrans; [eapply Hbody; exact E | eapply IH; exact Hrun].
Qed.

(** Whatever the wrapped function ends with is the outcome of one run of
    its body: the run after [i] failed ones, which succeeded or was the
    last one allowed. *)
Lemma retry_loop_inv body left :
  forall w r w',
    retry_loop left body w = (r, w') ->
    exists i, (i <= left)%nat /\
              (forall j, (j < i)%nat -> failed (outcome_at body j w)) /\
              body (world_after body i w) = (r, w') /\
              (succeeded r \/ i = left).
Proof.
  induction left as [| left IH]; intros w r w' Hrun; simpl in Hrun.
  - exists 0%nat. simpl.
    destruct (body w) as [[a | err] w1] eqn:E; inversion Hrun; subst;
      (split; [lia | split; [intros j Hj; lia | split; [reflexivity |]]]);
      simpl; auto.
  - destruct (body w) as [[a | err] w1] eqn:E.
    + exists 0%nat. inversion Hrun; subst. simpl.
      split; [lia | split; [intros j Hj; lia | split; [exact E | left; exact I]]].
    + destruct (IH _ _ _ Hrun) as (i & Hi & Hfail & Hlast & Hend).
      exists (S i). simpl. rewrite E. simpl.
      split; [lia |]. split; [| split; [exact Hlast |]].
      * intros [| j] Hj; unfold outcome_at; simpl; rewrite E; simpl; [exact I |].
        apply Hfail. lia.
      * destruct Hend as [Hs | Heq]; [left; exact Hs | right; lia].
Qed.

Lemma retry_loop_last body left w r w' :
  retry_loop left body w = (r, w') -> exists w0, body w0 = (r, w').
Proof.
  intros Hrun. destruct (retry_loop_inv _ _ _ _ _ Hrun) as (i & _ & _ & Hlast & _).
  eauto.
Qed.

(** A body that succeeds is run once. *)
Lemma retrying_first body retry w a w' :
  body w = (Ok a, w') -> retrying body retry w = (Ok a, w').
Proof. intros E. rewrite retrying_unfold, E. reflexivity. Qed.
End RetryFacts.

(** ** Running a sequence of steps *)

Section BindFacts.
Context {W A B : Type}.

Lemma bind_ok (m : M W A) (k : A -> M W B) w b w' :
  bind m k w = (Ok b, w') ->
  exists a w1, m w = (Ok a, w1) /\ k a w1 = (Ok b, w').
Proof.
  unfold bind. destruct (m w) as [[a | e] w1]; intros E; [eauto | discriminate].
Qed.

Lemma bind_run (m : M W A) (k : A -> M W B) w a w1 :
  m w = (Ok a, w1) -> bind m k w = k a w1.
Proof. unfold bind. intros ->. reflexivity. Qed.

Lemma bind_throw (m : M W A) (k : A -> M W B) w e w1 :
  m w = (Throw e, w1) -> bind m k w = (Throw e, w1).
Proof. unfold bind. intros ->. reflexivity. Qed.

Lemma lift_ok (r : Result A) (w w' : W) a :
  lift r w = (Ok a, w') -> r = Ok a /\ w' = w.
Proof. unfold lift. intros E. inversion E. auto. Qed.

Lemma ret_ok (a a' : A) (w w' : W) :
  ret a w = (Ok a', w') -> a' = a /\ w' = w.
Proof. unfold ret. intros E. inversion E. auto. Qed.
End BindFacts.

Lemma state_eta (st : State) : {| season := season st; episode := episode st |} = st.
Proof. destruct st; reflexivity. Qed.

(** ** The wrapped functions *)

Section WrappedFacts.
Context `{Imports}.

Lemma wrapped_retrying {A} (body : Fetch A) (f : nat -> Fetch A) :
  wrapped body f -> forall retry, f retry = retrying body retry.
Proof. intros Hw. destruct Hw; intros retry; reflexivity. Qed.

(** C3. Bounded retry of every exported function, over its own body: when
    the first [k <= 3] runs of the body throw and the next run succeeds,
    or is the fourth, the function ends with the outcome of that run (the
    success value, or the fourth error as it was thrown) in the world that
    [k + 1] runs of the body leave, and the body was executed exactly
    [k + 1] times. *)
Theorem retry_semantics {A} (body : Fetch A) (f : nat -> Fetch A)
        (w : World DB Document) (k : nat) (r : Result A) :
  wrapped body f ->
  (k <= 3)%nat ->
  (forall i, (i < k)%nat -> failed (outcome_at body i w)) ->
  outcome_at body k w = r ->
  succeeded r \/ k = 3%nat ->
  f 0%nat w = (r, world_after body (S k) w) /\
  retrying (counting body) 0 (w, 0%nat) = (r, (world_after body (S k) w, S k)).
Proof.
  intros Hw Hk Hfail Hout Hlast.
  rewrite (wrapped_retrying _ _ Hw). unfold retrying. simpl Nat.sub. split.
  - apply retry_loop_run; assumption.
  - rewrite (retry_loop_run (counting body) 3 k (w, 0%nat) r); try assumption.
    + rewrite counting_world_after. reflexivity.
    + intros i Hi. rewrite counting_outcome_at. apply Hfail. exact Hi.
    + rewrite counting_outcome_at. exact Hout.
Qed.
End WrappedFacts.

(** ** Clamping *)

Section ClampFacts.
Context `{Imports}.



(** What [clamp] computes, case by case. *)
Lemma clamp_absent seasons requested s0 rest e0 rest' :
  season_numbered (season requested) seasons = None ->
  seasons = s0 :: rest -> s_episodes s0 = e0 :: rest' ->
  clamp seasons requested =
  Ok ({| season := Some (s_number s0); episode := Some (e_number e0) |}, e0).
Proof.
  unfold season_numbered, clamp, locate. intros -> -> E. simpl. rewrite E. reflexivity.
Qed.


Lemma clamp_present seasons requested s e :
  season_numbered (season requested) seasons = Some s ->
  episode_numbered (episode requested) s = Some e ->
  clamp seasons requested = Ok (requested, e).
Proof.
  unfold season_numbered, episode_numbered, clamp, locate. intros -> ->. reflexivity.
Qed.

Lemma season_numbered_some n seasons s :
  season_numbered n seasons = Some s -> In s seasons /\ n = Some (s_number s).
Proof.
  unfold season_numbered. intros E. apply find_some in E as [Hin Heq].
  split; [exact Hin |]. unfold strict_eq in Heq.
  destruct n as [m |]; [| discriminate]. apply Z.eqb_eq in Heq. congruence.
Qed.

Lemma episode_numbered_some n s e :
  episode_numbered n s = Some e -> In e (s_episodes s) /\ n = Some (e_number e).
Proof.
  unfold episode_numbered. intros E. apply find_some in E as [Hin Heq].
  split; [exact Hin |]. unfold strict_eq in Heq.
  destruct n as [m |]; [| discriminate]. apply Z.eqb_eq in Heq. congruence.
Qed.


(** The state [clamp] leaves names the leaf it returns. *)
Lemma clamp_names_leaf seasons requested st leaf :
  clamp seasons requested = Ok (st, leaf) ->
  exists s, In s seasons /\ season st = Some (s_number s) /\
            In leaf (s_episodes s) /\ episode st = Some (e_number leaf) /\
            leaf_at seasons st = Some leaf.
Proof.
  unfold clamp, locate, leaf_at, season_numbered, episode_numbered.
  destruct (find (fun s => strict_eq (s_number s) (season requested)) seasons)
    as [s |] eqn:Es.
  - pose proof (season_numbered_some _ _ _ Es) as [Hin Hn].
    destruct (find (fun e => strict_eq (e_number e) (episode requested)) (s_episodes s))
      as [e |] eqn:Ee.
    + intros E. inversion E; subst. exists s.
      pose proof (episode_numbered_some _ _ _ Ee) as [Hine Hne].
      rewrite Es, Ee. auto.
    + destruct (s_episodes s) as [| e0 rest'] eqn:Eeps; simpl; [discriminate |].
      intros E. inversion E; subst. exists s. simpl. rewrite Es, Eeps. simpl.
      unfold strict_eq. rewrite Z.eqb_refl. auto 6.
  - destruct seasons as [| s0 rest]; simpl; [discriminate |].
    destruct (s_episodes s0) as [| e0 rest'] eqn:Eeps; simpl; [discriminate |].
    intros E. inversion E; subst. exists s0. simpl.
    rewrite Z.eqb_refl, Eeps. simpl. rewrite Z.eqb_refl. auto 6.
Qed.
End ClampFacts.

(** ** What the functions send *)

Section LogFacts.
Context `{Imports}.

Lemma ajax_post_log req (w : World DB Document) r w' :
  ajax_post req w = (r, w') -> log w' = log w ++ [req].
Proof.
  unfold ajax_post. destruct (reply (posts w)) as [r0 rest].
  intros E. inversion E. reflexivity.
Qed.

Lemma fetchSeriesStream_body_log args w r w' :
  fetchSeriesStream_body args w = (r, w') ->
  log w' = log w ++ [GetStream (ssa_id args) (ssa_translatorId args) (ssa_favsId args)
                               (ssa_season args) (ssa_episode args)].
Proof.
  unfold fetchSeriesStream_body, bind.
  destruct (ajax_post _ w) as [[data | e] w1] eqn:E;
    apply ajax_post_log in E; rewrite <- E.
  - destruct (negb (d_success data)); unfold throw, lift;
      intros E'; inversion E'; reflexivity.
  - intros E'; inversion E'; reflexivity.
Qed.

(** fetchSeriesStream sends its one request, once per attempt. *)
Lemma fetchSeriesStream_log args retry w r w' :
  fetchSeriesStream args retry w = (r, w') ->
  exists n, log w' =
            log w ++ repeat (GetStream (ssa_id args) (ssa_translatorId args)
                                       (ssa_favsId args) (ssa_season args)
                                       (ssa_episode args)) n.
Proof.
  unfold fetchSeriesStream, retrying.
  apply (retry_loop_preserves
           (fun w w' => exists n, log w' = log w ++ repeat _ n)).
  - intros w1 w2 w3 [n1 E1] [n2 E2]. exists (n1 + n2)%nat.
    rewrite E2, E1, <- app_assoc, repeat_app. reflexivity.
  - intros w0 r0 w0' E. exists 1%nat. simpl. eapply fetchSeriesStream_body_log, E.
Qed.

Lemma fetchSeriesEpisodesStream_body_log args w r w' :
  fetchSeriesEpisodesStream_body args w = (r, w') ->
  stream_fetches w' = stream_fetches w.
Proof.
  unfold fetchSeriesEpisodesStream_body, bind, stream_fetches.
  destruct (ajax_post _ w) as [[data | e] w1] eqn:E;
    apply ajax_post_log in E.
  - assert (Hw1 : filter (fun r => is_get_stream r = true) (log w1)
                  = filter (fun r => is_get_stream r = true) (log w)).
    { rewrite E, filter_app. simpl. rewrite filter_cons_False by (simpl; discriminate).
      rewrite filter_nil, app_nil_r. reflexivity. }
    rewrite <- Hw1.
    destruct (negb (d_success data)); unfold throw, lift, ret.
    + intros E'; inversion E'; reflexivity.
    + destruct (parseStreamSeasons _ _); [| intros E'; inversion E'; reflexivity].
      destruct (parseStream data); [| intros E'; inversion E'; reflexivity].
      destruct (default_season _ _); [| intros E'; inversion E'; reflexivity].
      destruct (default_episode _ _); intros E'; inversion E'; reflexivity.
  - intros E'. inversion E'. subst. rewrite E, filter_app. simpl.
    rewrite filter_cons_False by (simpl; discriminate).
    rewrite filter_nil, app_nil_r. reflexivity.
Qed.

(** Fetching a tree asks for no stream leaf. *)
Lemma fetchSeriesEpisodesStream_log args retry w r w' :
  fetchSeriesEpisodesStream args retry w = (r, w') ->
  stream_fetches w' = stream_fetches w.
Proof.
  unfold fetchSeriesEpisodesStream, retrying.
  apply (retry_loop_preserves (fun w w' => stream_fetches w' = stream_fetches w)).
  - intros w1 w2 w3 E1 E2. congruence.
  - intros w0 r0 w0' E. eapply fetchSeriesEpisodesStream_body_log, E.
Qed.
End LogFacts.

(** ** The series translator switch *)

Section SwitchFacts.
Context `{Imports}.

Lemma known_or_fetched_ok args seasons w tree init w1 :
  known_or_fetched (sta_item args) (sta_translatorId args) seasons w
  = (Ok (tree, init), w1) ->
  (seasons = Some tree /\ init = None /\ w1 = w) \/
  (seasons = None /\ init = Some tree /\
   exists res, fetchSeriesEpisodesStream (tree_request args) 0 w = (Ok res, w1) /\
               tree = tree_of (r_seasons res) (r_stream res) (r_streamFor res)).
Proof.
  unfold known_or_fetched. destruct seasons as [seasons |].
  - intros E. apply ret_ok in E as [E ->]. inversion E. auto.
  - intros E. apply bind_ok in E as (res & w2 & Hres & E).
    apply ret_ok in E as [E ->]. inversion E. subst. right. eauto 6.
Qed.

(** One run of the body that succeeds: the entry was there, the tree was
    known or fetched, the clamping steps gave the state and the leaf, and
    the leaf was fetched exactly when its slot was null. *)
Lemma fetchSeriesTranslator_body_ok args w res w' :
  fetchSeriesTranslator_body args w = (Ok res, w') ->
  exists entry tree leaf w1,
    entry_of args = Some entry /\
    known_or_fetched (sta_item args) (sta_translatorId args) (ss_seasons entry) w
    = (Ok (tree, initial res), w1) /\
    clamp tree (sta_state args) = Ok (stateTo res, leaf) /\
    match e_stream leaf with
    | Some _ => next res = None /\ w' = w1
    | None =>
        exists stream,
          fetchSeriesStream (leaf_fetch args (stateTo res)) 0 w1 = (Ok stream, w') /\
          next res = Some {| n_stream := stream; n_streamFor := stateTo res |}
    end.
Proof.
  unfold fetchSeriesTranslator_body. rewrite state_eta. intros E.
  apply bind_ok in E as (entry & w0 & Hentry & E).
  apply lift_ok in Hentry as [Hentry ->].
  apply bind_ok in E as ([tree init] & w1 & Htree & E).
  apply bind_ok in E as ([st leaf] & w2 & Hclamp & E).
  apply lift_ok in Hclamp as [Hclamp ->]. simpl in *.
  apply bind_ok in E as (nxt & w3 & Hnext & E).
  apply ret_ok in E as [-> ->]. simpl.
  exists entry, tree, leaf, w1.
  unfold entry_of, found in *.
  destruct (find _ (se_streams (sta_item args))) as [entry' |]; [| discriminate].
  inversion Hentry; subst entry'.
  repeat split; try assumption.
  destruct (e_stream leaf) as [s |].
  - apply ret_ok in Hnext as [-> ->]. auto.
  - apply bind_ok in Hnext as (stream & w4 & Hstream & E).
    apply ret_ok in E as [-> ->]. exists stream. auto.
Qed.

(** Whatever a switch returns was computed by the clamping steps on the
    tree it used. *)
Lemma fetchSeriesTranslator_ok args retry w res w' :
  fetchSeriesTranslator args retry w = (Ok res, w') ->
  exists tree leaf,
    tree_used args res = Some tree /\
    clamp tree (sta_state args) = Ok (stateTo res, leaf) /\
    (e_stream leaf <> None -> next res = None).
Proof.
  unfold fetchSeriesTranslator, retrying. intros E.
  apply retry_loop_last in E as [w0 E].
  apply fetchSeriesTranslator_body_ok in E
    as (entry & tree & leaf & w1 & Hentry & Htree & Hclamp & Hleaf).
  exists tree, leaf. unfold tree_used. rewrite Hentry.
  apply known_or_fetched_ok in Htree
    as [(-> & _ & _) | (-> & -> & _)]; (split; [reflexivity |]);
    (split; [exact Hclamp |]);
    destruct (e_stream leaf); intros Hs; try contradiction; apply Hleaf.
Qed.

(** One run of the body once the tree is there and clamped. *)
Lemma fetchSeriesTranslator_body_run args w entry tree init w1 st leaf :
  entry_of args = Some entry ->
  known_or_fetched (sta_item args) (sta_translatorId args) (ss_seasons entry) w
  = (Ok (tree, init), w1) ->
  clamp tree (sta_state args) = Ok (st, leaf) ->
  fetchSeriesTranslator_body args w =
  match e_stream leaf with
  | Some _ => (Ok {| stateTo := st; initial := init; next := None |}, w1)
  | None =>
      bind (fetchSeriesStream (leaf_fetch args st) 0)
           (fun stream =>
              ret {| stateTo := st; initial := init;
                     next := Some {| n_stream := stream; n_streamFor := st |} |}) w1
  end.
Proof.
  intros Hentry Htree Hclamp.
  unfold fetchSeriesTranslator_body. rewrite state_eta.
  unfold entry_of in Hentry. rewrite Hentry. simpl.
  unfold bind at 1. unfold lift at 1.
  unfold bind at 1. rewrite Htree.
  simpl. unfold bind at 1. unfold lift at 1. rewrite Hclamp. simpl.
  destruct (e_stream leaf); [reflexivity |].
  unfold bind, ret, leaf_fetch.
  destruct (fetchSeriesStream _ 0 w1) as [[stream | e] w2]; reflexivity.
Qed.

(** A switch whose clamped leaf holds a stream ends at the first attempt,
    in the world the tree left. *)
Lemma switch_resolved args w entry tree init w1 st leaf s :
  entry_of args = Some entry ->
  known_or_fetched (sta_item args) (sta_translatorId args) (ss_seasons entry) w
  = (Ok (tree, init), w1) ->
  clamp tree (sta_state args) = Ok (st, leaf) ->
  e_stream leaf = Some s ->
  fetchSeriesTranslator args 0 w
  = (Ok {| stateTo := st; initial := init; next := None |}, w1).
Proof.
  intros Hentry Htree Hclamp Hleaf. apply retrying_first.
  rewrite (fetchSeriesTranslator_body_run _ _ _ _ _ _ _ _ Hentry Htree Hclamp), Hleaf.
  reflexivity.
Qed.

(** A switch whose clamped leaf is empty and whose fetch succeeds. *)
Lemma switch_fetched args w entry tree init w1 st leaf stream w2 :
  entry_of args = Some entry ->
  known_or_fetched (sta_item args) (sta_translatorId args) (ss_seasons entry) w
  = (Ok (tree, init), w1) ->
  clamp tree (sta_state args) = Ok (st, leaf) ->
  e_stream leaf = None ->
  fetchSeriesStream (leaf_fetch args st) 0 w1 = (Ok stream, w2) ->
  fetchSeriesTranslator args 0 w
  = (Ok {| stateTo := st; initial := init;
           next := Some {| n_stream := stream; n_streamFor := st |} |}, w2).
Proof.
  intros Hentry Htree Hclamp Hleaf Hstream. apply retrying_first.
  rewrite (fetchSeriesTranslator_body_run _ _ _ _ _ _ _ _ Hentry Htree Hclamp), Hleaf.
  unfold bind. rewrite Hstream. reflexivity.
Qed.

(** On a known tree every request of a switch is the one for the clamped
    leaf. *)
Lemma switch_known_log args w entry seasons st leaf r w' :
  entry_of args = Some entry ->
  ss_seasons entry = Some seasons ->
  clamp seasons (sta_state args) = Ok (st, leaf) ->
  fetchSeriesTranslator args 0 w = (r, w') ->
  exists n, log w' = log w ++ repeat (leaf_request args st) n.
Proof.
  intros Hentry Hseasons Hclamp. unfold fetchSeriesTranslator, retrying.
  apply (retry_loop_preserves
           (fun w w' => exists n, log w' = log w ++ repeat (leaf_request args st) n)).
  - intros w1 w2 w3 [n1 E1] [n2 E2]. exists (n1 + n2)%nat.
    rewrite E2, E1, <- app_assoc, repeat_app. reflexivity.
  - intros w0 r0 w0' E.
    rewrite (fetchSeriesTranslator_body_run args w0 entry seasons None w0 st leaf)
      in E; [| assumption | rewrite Hseasons; reflexivity | assumption].
    destruct (e_stream leaf).
    + inversion E; subst. exists 0%nat. simpl. rewrite app_nil_r. reflexivity.
    + unfold bind in E.
      destruct (fetchSeriesStream _ 0 w0) as [[stream | e] w2] eqn:Es;
        apply fetchSeriesStream_log in Es; inversion E; subst; exact Es.
Qed.

Lemma season_absent_iff n seasons :
  season_numbered n seasons = None <->
  forall s, In s seasons -> n <> Some (s_number s).
Proof.
  unfold season_numbered. split.
  - intros E s Hin Hn. apply (find_none _ _ E) in Hin.
    subst n. simpl in Hin. rewrite Z.eqb_refl in Hin. discriminate.
  - intros Hall. destruct (find _ seasons) as [s |] eqn:E; [| reflexivity].
    apply season_numbered_some in E as [Hin Hn]. exfalso. eapply Hall; eauto.
Qed.



(** C4. Leaf reuse. When the leaf the clamping steps end on already holds
    a stream, fetchSeriesTranslator ends at its first attempt with no
    [next]: on a known tree nothing at all is sent and the world is left
    as it was; on a tree it had to fetch, the world is the one the tree
    fetch left and no request for a stream leaf was sent. *)
Theorem leaf_reuse args w entry :
  entry_of args = Some entry ->
  (forall seasons st leaf s,
      ss_seasons entry = Some seasons ->
      clamp seasons (sta_state args) = Ok (st, leaf) ->
      e_stream leaf = Some s ->
      fetchSeriesTranslator args 0 w
      = (Ok {| stateTo := st; initial := None; next := None |}, w)) /\
  (forall fetched w1 st leaf s,
      ss_seasons entry = None ->
      fetchSeriesEpisodesStream (tree_request args) 0 w = (Ok fetched, w1) ->
      let seasons := tree_of (r_seasons fetched) (r_stream fetched)
                             (r_streamFor fetched) in
      clamp seasons (sta_state args) = Ok (st, leaf) ->
      e_stream leaf = Some s ->
      fetchSeriesTranslator args 0 w
      = (Ok {| stateTo := st; initial := Some seasons; next := None |}, w1) /\
      stream_fetches w1 = stream_fetches w).
Proof.
  intros Hentry. split.
  - intros seasons st leaf s Hseasons Hclamp Hleaf.
    eapply switch_resolved; eauto. rewrite Hseasons. reflexivity.
  - intros fetched w1 st leaf s Hseasons Hfetch seasons Hclamp Hleaf. split.
    + eapply switch_resolved; eauto. rewrite Hseasons.
      unfold known_or_fetched, bind. unfold tree_request in Hfetch.
      rewrite Hfetch. reflexivity.
    + eapply fetchSeriesEpisodesStream_log, Hfetch.
Qed.

(** C5, amended. Leaf reuse keeps the stream where it is. A switch that
    targets a leaf of a known tree which already holds a stream sends
    nothing and ends at once; its result carries the requested state and
    nothing else, [initial] and [next] are both absent, so no stream is in
    it; the tree the switch worked on is the item's own, and the state names
    the leaf of it where the stream still is. *)
Theorem leaf_reuse_keeps_stream args w entry seasons leaf s :
  entry_of args = Some entry ->
  ss_seasons entry = Some seasons ->
  leaf_at seasons (sta_state args) = Some leaf ->
  e_stream leaf = Some s ->
  exists res,
    fetchSeriesTranslator args 0 w = (Ok res, w) /\
    stateTo res = sta_state args /\
    initial res = None /\
    next res = None /\
    response_streams res = [] /\
    tree_used args res = Some seasons /\
    option_map e_stream (leaf_at seasons (stateTo res)) = Some (Some s).
Proof.
  intros Hentry Hseasons Hat Hleaf.
  assert (Hclamp : clamp seasons (sta_state args) = Ok (sta_state args, leaf)).
  { unfold leaf_at in Hat.
    destruct (season_numbered _ seasons) as [s' |] eqn:Es; [| discriminate].
    eapply clamp_present; eauto. }
  exists {| stateTo := sta_state args; initial := None; next := None |}. split.
  - eapply switch_resolved; eauto. rewrite Hseasons. reflexivity.
  - unfold tree_used. rewrite Hentry, Hseasons. simpl. rewrite Hat. simpl.
    rewrite Hleaf. auto 7.
Qed.

(** C8, amended. Clamping comes before the leaf lookup. On a known tree
    whose first season has a first episode, a switch to a season that is
    not in the tree works on the first season and its first episode: every
    request it sends asks for that leaf, never for the absent season, and
    every result carries that state. When that leaf already holds a stream
    nothing is sent and the world is left as it was; when its slot is null
    the stream of that leaf is fetched and reported as [next]. *)
Theorem clamp_before_leaf args w entry seasons s0 rest e0 rest' :
  entry_of args = Some entry ->
  ss_seasons entry = Some seasons ->
  seasons = s0 :: rest ->
  s_episodes s0 = e0 :: rest' ->
  season_numbered (season (sta_state args)) seasons = None ->
  let clamped := {| season := Some (s_number s0); episode := Some (e_number e0) |} in
  (forall r w',
      fetchSeriesTranslator args 0 w = (r, w') ->
      (exists n, log w' = log w ++ repeat (leaf_request args clamped) n) /\
      (forall res, r = Ok res -> stateTo res = clamped)) /\
  (forall s,
      e_stream e0 = Some s ->
      fetchSeriesTranslator args 0 w
      = (Ok {| stateTo := clamped; initial := None; next := None |}, w)) /\
  (forall stream w1,
      e_stream e0 = None ->
      fetchSeriesStream (leaf_fetch args clamped) 0 w = (Ok stream, w1) ->
      fetchSeriesTranslator args 0 w
      = (Ok {| stateTo := clamped; initial := None;
               next := Some {| n_stream := stream; n_streamFor := clamped |} |}, w1)).
Proof.
  intros Hentry Hseasons Hs0 He0 Habsent clamped.
  pose proof (clamp_absent _ _ _ _ _ _ Habsent Hs0 He0) as Hclamp.
  fold clamped in Hclamp.
  assert (Htree : known_or_fetched (sta_item args) (sta_translatorId args)
                                   (ss_seasons entry) w = (Ok (seasons, None), w))
    by (rewrite Hseasons; reflexivity).
  split; [| split].
  - intros r w' Hrun. split; [eapply switch_known_log; eauto |].
    intros res ->.
    apply fetchSeriesTranslator_ok in Hrun as (tree & leaf' & Hused & Hclamp' & _).
    unfold tree_used in Hused. rewrite Hentry, Hseasons in Hused.
    inversion Hused; subst tree. rewrite Hclamp in Hclamp'.
    inversion Hclamp'; reflexivity.
  - intros s Hleaf. eapply switch_resolved; eauto.
  - intros stream w1 Hleaf Hstream. eapply switch_fetched; eauto.
Qed.
End SwitchFacts.

(** ** The tree fetch *)

Section TreeFacts.
Context `{Imports}.

Lemma fetchSeriesEpisodesStream_body_ok args w res w' :
  fetchSeriesEpisodesStream_body args w = (Ok res, w') ->
  default_season (esa_season args) (r_seasons res) = Ok (sf_season (r_streamFor res)) /\
  default_episode (esa_episode args) (r_seasons res) = Ok (sf_episode (r_streamFor res)).
Proof.
  unfold fetchSeriesEpisodesStream_body. intros E.
  apply bind_ok in E as (data & w1 & _ & E).
  destruct (negb (d_success data)); [discriminate |].
  apply bind_ok in E as (seasons & w2 & _ & E).
  apply bind_ok in E as (stream & w3 & _ & E).
  apply bind_ok in E as (s & w4 & Hs & E).
  apply bind_ok in E as (e & w5 & He & E).
  apply lift_ok in Hs as [Hs _]. apply lift_ok in He as [He _].
  apply ret_ok in E as [-> _]. simpl. auto.
Qed.

Lemma fetchSeriesEpisodesStream_ok args retry w res w' :
  fetchSeriesEpisodesStream args retry w = (Ok res, w') ->
  default_season (esa_season args) (r_seasons res) = Ok (sf_season (r_streamFor res)) /\
  default_episode (esa_episode args) (r_seasons res) = Ok (sf_episode (r_streamFor res)).
Proof.
  unfold fetchSeriesEpisodesStream, retrying. intros E.
  apply retry_loop_last in E as [w0 E].
  eapply fetchSeriesEpisodesStream_body_ok, E.
Qed.

(** The upstream answers at once and the page parses. *)
Lemma fetchSeriesEpisodesStream_run args w data replies seasons stream s e :
  posts w = Ok data :: replies ->
  d_success data = true ->
  parseStreamSeasons (d_seasons data) (d_episodes data) = Ok seasons ->
  parseStream data = Ok stream ->
  default_season (esa_season args) seasons = Ok s ->
  default_episode (esa_episode args) seasons = Ok e ->
  exists w',
    fetchSeriesEpisodesStream args 0 w
    = (Ok {| r_seasons := seasons; r_stream := stream;
             r_streamFor := {| sf_season := s; sf_episode := e |} |}, w') /\
    log w' = log w ++ [episodes_request args].
Proof.
  intros Hposts Hsuccess Hseasons Hstream Hs He.
  eexists. split.
  - apply retrying_first. unfold fetchSeriesEpisodesStream_body, bind at 1.
    unfold ajax_post. rewrite Hposts. simpl. rewrite Hsuccess. simpl.
    unfold bind, lift, ret. rewrite Hseasons, Hstream, Hs, He. reflexivity.
  - reflexivity.
Qed.

Lemma default_episode_first seasons hint e :
  truthy_number hint = None ->
  default_episode hint seasons = Ok e ->
  exists s0 rest e0 rest',
    seasons = s0 :: rest /\ ps_episodes s0 = e0 :: rest' /\ e = pe_number e0.
Proof.
  unfold default_episode. intros ->.
  destruct seasons as [| s0 rest]; simpl; [discriminate |].
  destruct (ps_episodes s0) as [| e0 rest'] eqn:E; simpl; [discriminate |].
  intros E'. inversion E'. eauto 8.
Qed.

(** C7. Default targeting of the tree fetch. With no season and no episode
    hint, every result of fetchSeriesEpisodesStream has a first season with
    a first episode, in the order the parser gave them, and its streamFor
    is the number of that season with the number of that episode; and the
    function does return such a result when the upstream answers and the
    page has a first season with a first episode. *)
Theorem default_targeting args w :
  esa_season args = None ->
  esa_episode args = None ->
  (forall res w',
      fetchSeriesEpisodesStream args 0 w = (Ok res, w') ->
      exists s0 rest e0 rest',
        r_seasons res = s0 :: rest /\ ps_episodes s0 = e0 :: rest' /\
        r_streamFor res = {| sf_season := ps_number s0; sf_episode := pe_number e0 |}) /\
  (forall data replies seasons stream s0 rest e0 rest',
      posts w = Ok data :: replies ->
      d_success data = true ->
      parseStreamSeasons (d_seasons data) (d_episodes data) = Ok seasons ->
      parseStream data = Ok stream ->
      seasons = s0 :: rest ->
      ps_episodes s0 = e0 :: rest' ->
      exists w',
        fetchSeriesEpisodesStream args 0 w
        = (Ok {| r_seasons := seasons; r_stream := stream;
                 r_streamFor := {| sf_season := ps_number s0;
                                   sf_episode := pe_number e0 |} |}, w') /\
        log w' = log w ++ [episodes_request args]).
Proof.
  intros Hseason Hepisode. split.
  - intros res w' Hrun.
    apply fetchSeriesEpisodesStream_ok in Hrun as [Hs He].
    rewrite Hseason in Hs. rewrite Hepisode in He.
    apply default_episode_first in He as (s0 & rest & e0 & rest' & E1 & E2 & E3);
      [| reflexivity].
    exists s0, rest, e0, rest'. split; [exact E1 |]. split; [exact E2 |].
    unfold default_season in Hs. rewrite E1 in Hs. simpl in Hs. inversion Hs.
    destruct (r_streamFor res) as [a b]. simpl in *. congruence.
  - intros data replies seasons stream s0 rest e0 rest' Hposts Hok Hseasons Hstream E1 E2.
    apply (fetchSeriesEpisodesStream_run args w data replies seasons stream _ _
             Hposts Hok Hseasons Hstream).
    + rewrite Hseason, E1. reflexivity.
    + rewrite Hepisode, E1. unfold default_episode. simpl. rewrite E2. reflexivity.
Qed.

(** C10. A season hint without an episode hint. With a season hint [s]
    other than 0 and the episode hint missing or 0, every result of
    fetchSeriesEpisodesStream has a first season with a first episode and
    its streamFor is [s] with the number of the first episode of the first
    season of the page, whatever season [s] is; and the function does
    return such a result when the upstream answers and the page has a
    first season with a first episode. *)
Theorem season_hint_alone args w s :
  esa_season args = Some s ->
  s <> 0 ->
  esa_episode args = None \/ esa_episode args = Some 0 ->
  (forall res w',
      fetchSeriesEpisodesStream args 0 w = (Ok res, w') ->
      exists s0 rest e0 rest',
        r_seasons res = s0 :: rest /\ ps_episodes s0 = e0 :: rest' /\
        r_streamFor res = {| sf_season := s; sf_episode := pe_number e0 |}) /\
  (forall data replies seasons stream s0 rest e0 rest',
      posts w = Ok data :: replies ->
      d_success data = true ->
      parseStreamSeasons (d_seasons data) (d_episodes data) = Ok seasons ->
      parseStream data = Ok stream ->
      seasons = s0 :: rest ->
      ps_episodes s0 = e0 :: rest' ->
      exists w',
        fetchSeriesEpisodesStream args 0 w
        = (Ok {| r_seasons := seasons; r_stream := stream;
                 r_streamFor := {| sf_season := s;
                                   sf_episode := pe_number e0 |} |}, w') /\
        log w' = log w ++ [episodes_request args]).
Proof.
  intros Hseason Hs0 Hepisode.
  assert (Hts : truthy_number (esa_season args) = Some s).
  { rewrite Hseason. simpl. destruct (Z.eqb_spec s 0); [contradiction | reflexivity]. }
  assert (Hte : truthy_number (esa_episode args) = None)
    by (destruct Hepisode as [-> | ->]; reflexivity).
  split.
  - intros res w' Hrun.
    apply fetchSeriesEpisodesStream_ok in Hrun as [Hs He].
    apply default_episode_first in He as (s0 & rest & e0 & rest' & E1 & E2 & E3);
      [| exact Hte].
    exists s0, rest, e0, rest'. split; [exact E1 |]. split; [exact E2 |].
    unfold default_season in Hs. rewrite Hts in Hs. inversion Hs.
    destruct (r_streamFor res) as [a b]. simpl in *. congruence.
  - intros data replies seasons stream s0 rest e0 rest' Hposts Hok Hseasons Hstream E1 E2.
    apply (fetchSeriesEpisodesStream_run args w data replies seasons stream _ _
             Hposts Hok Hseasons Hstream).
    + unfold default_season. rewrite Hts. reflexivity.
    + unfold default_episode. rewrite Hte, E1. simpl. rewrite E2. reflexivity.
Qed.
End TreeFacts.

(** ** The movie translator switch *)

Section MovieFacts.
Context `{Imports}.

Lemma fetchMovieTranslator_body_hit args w entry s :
  movie_entry args = Some entry ->
  ms_stream entry = Some s ->
  fetchMovieTranslator_body args w = (Ok {| stream := None |}, w).
Proof.
  unfold movie_entry, fetchMovieTranslator_body. intros -> Hs. simpl.
  unfold bind, lift. rewrite Hs. reflexivity.
Qed.

Lemma fetchMovieTranslator_body_miss args w entry translator :
  movie_entry args = Some entry ->
  ms_stream entry = None ->
  movie_translator args = Some translator ->
  fetchMovieTranslator_body args w =
  bind (fetchMovieStream (movie_request args translator) 0)
       (fun stream => ret {| stream := Some stream |}) w.
Proof.
  unfold movie_entry, movie_translator, fetchMovieTranslator_body.
  intros -> Hs ->. simpl. unfold bind at 1. unfold lift at 1. rewrite Hs.
  reflexivity.
Qed.

Lemma find_same_ids {A B} (f : A -> Z) (g : B -> Z) (n : Z) (la : list A) :
  forall lb : list B,
    map f la = map g lb ->
    find (fun a => Z.eqb (f a) n) la <> None ->
    find (fun b => Z.eqb (g b) n) lb <> None.
Proof.
  induction la as [| a la IH]; intros [| b lb] Hmap Hfind; simpl in *;
    try discriminate; try contradiction.
  injection Hmap as Hab Hrest. rewrite <- Hab.
  destruct (Z.eqb (f a) n); [discriminate |]. eapply IH; eauto.
Qed.

(** On a movie item the slot of a translator comes with the translator. *)
Lemma slot_has_translator args entry :
  one_slot_per_translator (mta_item args) ->
  movie_entry args = Some entry ->
  exists translator, movie_translator args = Some translator.
Proof.
  unfold one_slot_per_translator, movie_entry, movie_translator. intros Hinv Hentry.
  destruct (find (fun t => Z.eqb (tr_id t) (mta_translatorId args))
                 (b_translators (m_base (mta_item args)))) as [t |] eqn:E; [eauto |].
  exfalso.
  apply (find_same_ids ms_translatorId tr_id (mta_translatorId args) _ _ Hinv);
    [rewrite Hentry; discriminate | exact E].
Qed.

(** C6. The movie switch. On a movie item, with its one slot per
    translator, whose streams have an entry for the target translator: when
    that slot already holds a stream, fetchMovieTranslator ends at once,
    nothing is sent, the database is not touched and no stream is reported;
    when the slot is null, it asks fetchMovieStream for the stream of that
    translator with the translator's flags: the stream that call gives is
    reported as the new slot content, and every result reports a stream that
    fetchMovieStream gave for that request. *)
Theorem movie_switch args w entry :
  one_slot_per_translator (mta_item args) ->
  movie_entry args = Some entry ->
  (forall s, ms_stream entry = Some s ->
             fetchMovieTranslator args 0 w = (Ok {| stream := None |}, w)) /\
  (ms_stream entry = None ->
   exists translator,
     movie_translator args = Some translator /\
     (forall s w1,
         fetchMovieStream (movie_request args translator) 0 w = (Ok s, w1) ->
         fetchMovieTranslator args 0 w = (Ok {| stream := Some s |}, w1)) /\
     (forall r w',
         fetchMovieTranslator args 0 w = (Ok r, w') ->
         exists s w0,
           stream r = Some s /\
           fetchMovieStream (movie_request args translator) 0 w0 = (Ok s, w'))).
Proof.
  intros Hinv Hentry. split.
  - intros s Hs. apply retrying_first. eapply fetchMovieTranslator_body_hit; eauto.
  - intros Hs. destruct (slot_has_translator _ _ Hinv Hentry) as [translator Htr].
    exists translator. split; [exact Htr |]. split.
    + intros s w1 Hfetch. apply retrying_first.
      rewrite (fetchMovieTranslator_body_miss _ _ _ _ Hentry Hs Htr).
      unfold bind. rewrite Hfetch. reflexivity.
    + intros r w' Hrun. unfold fetchMovieTranslator, retrying in Hrun.
      apply retry_loop_last in Hrun as [w0 Hrun].
      rewrite (fetchMovieTranslator_body_miss _ _ _ _ Hentry Hs Htr) in Hrun.
      apply bind_ok in Hrun as (s & w1 & Hfetch & E).
      apply ret_ok in E as [-> ->]. exists s, w0. auto.
Qed.
End MovieFacts.

(** ** The fan-out of the stream details *)

Section PromiseFacts.
Context `{Imports}.
Context {A : Type}.
Implicit Types (p : Promise A) (ps : list (Promise A)).

(** A promise that is awaited where it is made is the call awaited:
    [await f(args)]. *)
Lemma await_pending_retry ahead (body : Fetch A) :
  forall w r w1,
    body w = (r, w1) -> await_pending ahead body r w1 = retry_loop ahead body w.
Proof.
  induction ahead as [| ahead IH]; intros w r w1 E; simpl; rewrite E.
  - destruct r; reflexivity.
  - destruct r as [a | err]; [reflexivity |].
    destruct (body w1) as [r' w'] eqn:E'. apply IH, E'.
Qed.

Lemma start_await (body : Fetch A) w :
  await (fst (start body w)) (snd (start body w)) = retrying body 0 w.
Proof.
  unfold start, retrying. destruct (body w) as [r w1] eqn:E.
  cbn [fst snd await Nat.sub]. apply await_pending_retry, E.
Qed.

Lemma start_each_facts (bodies : list (Fetch A)) :
  forall w ps w',
    start_each bodies w = (ps, w') ->
    length ps = length bodies /\ Forall not_rejected ps.
Proof.
  induction bodies as [| body rest IH]; intros w ps w' E; simpl in E.
  - inversion E; subst. auto.
  - unfold start in E. destruct (body w) as [r w1].
    destruct (start_each rest w1) as [ps1 w2] eqn:Er. inversion E; subst.
    destruct (IH _ _ _ Er) as [Hlen Hall]. split; [simpl; congruence |].
    constructor; [intros e; discriminate | exact Hall].
Qed.

Lemma deliver_facts p w p' now w' :
  deliver p w = ((p', now), w') ->
  (forall e, p = Settled (Throw e) -> p' = Settled (Throw e)) /\
  (now = None -> not_rejected p -> not_rejected p') /\
  (forall e, now = Some e -> p' = Settled (Throw e)).
Proof.
  unfold deliver, not_rejected. destruct p as [r | [a | err] body [| ahead]].
  - intros E. inversion E; subst. repeat split; auto; discriminate.
  - intros E. inversion E; subst. repeat split; try discriminate.
  - intros E. inversion E; subst. repeat split; try discriminate.
  - intros E. inversion E; subst. repeat split; try discriminate.
    intros e E'. inversion E'. reflexivity.
  - destruct (body w) as [r w1]. intros E. inversion E; subst.
    repeat split; try discriminate.
Qed.

Lemma deliver_nth_facts j ps w ps' now w' :
  deliver_nth j ps w = ((ps', now), w') ->
  length ps' = length ps /\
  (forall e, In (Settled (Throw e)) ps -> In (Settled (Throw e)) ps') /\
  (now = None -> Forall not_rejected ps -> Forall not_rejected ps') /\
  (forall e, now = Some e -> In (Settled (Throw e)) ps').
Proof.
  revert j ps' now w'. induction ps as [| p rest IH]; intros j ps' now w' E.
  - destruct j; simpl in E; inversion E; subst; repeat split; auto; discriminate.
  - destruct j as [| j']; simpl in E.
    + destruct (deliver p w) as [[p1 now1] w1] eqn:Ea. inversion E; subst.
      destruct (deliver_facts _ _ _ _ _ Ea) as (Hstay & Hclean & Hnow).
      split; [reflexivity |]. split; [| split].
      * intros e [-> | Hin]; [left; apply Hstay; reflexivity | right; exact Hin].
      * intros Hn Hall. inversion Hall; subst. constructor; auto.
      * intros e He. left. apply Hnow, He.
    + destruct (deliver_nth j' rest w) as [[rest1 now1] w1] eqn:Ea. inversion E; subst.
      destruct (IH _ _ _ _ Ea) as (Hlen & Hstay & Hclean & Hnow).
      split; [simpl; congruence |]. split; [| split].
      * intros e [-> | Hin]; [left; reflexivity | right; apply Hstay, Hin].
      * intros Hn Hall. inversion Hall; subst. constructor; auto.
      * intros e He. right. apply Hnow, He.
Qed.

Lemma wait_each_facts ps :
  forall w ps' now w',
    wait_each ps w = ((ps', now), w') ->
    length ps' = length ps /\
    match now with
    | None => Forall fulfilled ps'
    | Some e => In (Settled (Throw e)) ps'
    end.
Proof.
  induction ps as [| p rest IH]; intros w ps' now w' E; simpl in E.
  - inversion E; subst. split; [reflexivity | constructor].
  - destruct (await p w) as [[a | err] w1].
    + destruct (wait_each rest w1) as [[rest' now1] w2] eqn:Ew. inversion E; subst.
      destruct (IH _ _ _ _ Ew) as [Hlen Hnow]. split; [simpl; congruence |].
      destruct now as [e |]; [right; exact Hnow |].
      constructor; [exists a; reflexivity | exact Hnow].
    + inversion E; subst. split; [reflexivity | left; reflexivity].
Qed.

Lemma fulfilled_values ps :
  Forall fulfilled ps -> exists l, ps = map (fun a => Settled (Ok a)) l.
Proof.
  induction 1 as [| p ps [a ->] _ [l ->]].
  - exists []. reflexivity.
  - exists (a :: l). reflexivity.
Qed.

Lemma await_all_values (l : list A) (w : World DB Document) :
  await_all (map (fun a => Settled (Ok a)) l) w = (Ok l, w).
Proof.
  induction l as [| a l IH]; simpl; [reflexivity |].
  unfold bind. simpl. unfold bind in IH. rewrite IH. reflexivity.
Qed.
End PromiseFacts.

Section DetailsFacts.
Context `{Imports}.

Lemma step_consistent i fan w fan' w' :
  step i fan w = (fan', w') ->
  fan_consistent fan -> fan_consistent fan' /\
  length (promises fan') = length (promises fan).
Proof.
  unfold step, fan_consistent. destruct (rejected fan) as [e |] eqn:Er.
  - intros E. inversion E; subst. rewrite Er. auto.
  - destruct i as [| j].
    + destruct (deliver (thumbnailsPromise fan) w) as [[p' now] w1] eqn:Ea.
      intros E. inversion E; subst. simpl.
      destruct (deliver_facts _ _ _ _ _ Ea) as (Hstay & Hclean & Hnow).
      intros [Ht Hall]. split; [| reflexivity].
      destruct now as [e |].
      * left. apply Hnow. reflexivity.
      * split; [apply Hclean; auto | exact Hall].
    + destruct (deliver_nth j (promises fan) w) as [[ps' now] w1] eqn:Ea.
      intros E. inversion E; subst. simpl.
      destruct (deliver_nth_facts _ _ _ _ _ _ Ea) as (Hlen & Hstay & Hclean & Hnow).
      intros [Ht Hall]. split; [| exact Hlen].
      destruct now as [e |].
      * right. apply Hnow. reflexivity.
      * split; [exact Ht | apply Hclean; auto].
Qed.

Lemma run_consistent order :
  forall fan w fan' w',
    run order fan w = (fan', w') ->
    fan_consistent fan -> fan_consistent fan' /\
    length (promises fan') = length (promises fan).
Proof.
  induction order as [| i order IH]; intros fan w fan' w' E Hc; simpl in E.
  - inversion E; subst. auto.
  - destruct (step i fan w) as [fan1 w1] eqn:Es.
    destruct (step_consistent _ _ _ _ _ Es Hc) as [Hc1 Hlen1].
    destruct (IH _ _ _ _ E Hc1) as [Hc2 Hlen2]. split; [exact Hc2 | congruence].
Qed.

Lemma finish_settled fan w fan' w' :
  finish fan w = (fan', w') ->
  fan_consistent fan ->
  fan_settled fan' /\ length (promises fan') = length (promises fan).
Proof.
  unfold finish, fan_consistent, fan_settled.
  destruct (rejected fan) as [e |] eqn:Er.
  - intros E. inversion E; subst. rewrite Er. auto.
  - destruct (await (thumbnailsPromise fan) w) as [[th | err] w1].
    + destruct (wait_each (promises fan) w1) as [[ps now] w2] eqn:Ew.
      intros E. inversion E; subst. simpl. intros _.
      destruct (wait_each_facts _ _ _ _ _ Ew) as [Hlen Hnow]. split; [| exact Hlen].
      destruct now as [e |]; [right; exact Hnow |].
      split; [exists th; reflexivity | exact Hnow].
    + intros E. inversion E; subst. simpl. intros _. split; [left |]; reflexivity.
Qed.

(** Whatever the schedule, an attempt ends with a branch rejected, whose
    reason is kept, or with every branch fulfilled, and there is one size
    branch per quality. *)
Lemma attempt_settled schedule args w :
  fan_settled (fst (details_branches schedule args w)) /\
  length (promises (fst (details_branches schedule args w)))
  = length (qualities (da_stream args)).
Proof.
  unfold details_branches, start.
  destruct (fetchStreamThumbnails_body _ w) as [r w1].
  destruct (start_each _ w1) as [ps w2] eqn:Es.
  apply start_each_facts in Es as [Hlen0 Hall].
  destruct (run (schedule w) _ w2) as [fan w3] eqn:Er.
  apply run_consistent in Er as [Hc Hlen].
  - destruct (finish fan w3) as [fan' w4] eqn:Ef. simpl.
    destruct (finish_settled _ _ _ _ Ef Hc) as [Hs Hlen'].
    split; [exact Hs |]. simpl in Hlen. rewrite Hlen', Hlen, Hlen0, length_map.
    reflexivity.
  - unfold fan_consistent. simpl. split; [intros e; discriminate | exact Hall].
Qed.

(** The join of a settled fan is all or nothing, and leaves the world as it
    is. *)
Lemma join_details_settled fan w :
  fan_settled fan ->
  match rejected fan with
  | Some e => join_details fan w = (Throw e, w)
  | None => exists th l,
      thumbnailsPromise fan = Settled (Ok th) /\
      promises fan = map (fun z => Settled (Ok z)) l /\
      join_details fan w = (Ok {| thumbnails := th; sizes := l |}, w)
  end.
Proof.
  unfold fan_settled, join_details. destruct (rejected fan) as [e |].
  - intros _. reflexivity.
  - intros [[th Hth] Hall]. apply fulfilled_values in Hall as [l Hl].
    exists th, l. split; [exact Hth |]. split; [exact Hl |].
    rewrite Hth, Hl. unfold bind. simpl. rewrite await_all_values. reflexivity.
Qed.


Lemma fetchStreamDetails_body_eq schedule args w :
  fetchStreamDetails_body schedule args w =
  join_details (fst (details_branches schedule args w))
               (snd (details_branches schedule args w)).
Proof.
  unfold fetchStreamDetails_body.
  destruct (details_branches schedule args w) as [fan w1]. reflexivity.
Qed.

End DetailsFacts.

(** * Further properties *)

(** ** Attempts and requests *)

Section AttemptFacts.
Context `{Imports}.

(** A body that throws without touching the world throws the same way on
    every attempt. *)
Lemma retry_loop_stuck {A} (body : Fetch A) e w left :
  body w = (Throw e, w) -> retry_loop left body w = (Throw e, w).
Proof.
  intros E. induction left as [| left IH]; simpl; rewrite E; [reflexivity | exact IH].
Qed.

(** When every run of the body sends between [a] and [b] copies of one
    request, the wrapped function sends between [a] and [(left + 1) * b]. *)
Lemma retry_loop_log_bounds {A} (body : Fetch A) req (a b : nat) :
  (forall w r w', body w = (r, w') ->
                  exists m, (a <= m <= b)%nat /\ log w' = log w ++ repeat req m) ->
  forall left w r w',
    retry_loop left body w = (r, w') ->
    exists n, (a <= n <= S left * b)%nat /\ log w' = log w ++ repeat req n.
Proof.
  intros Hbody. induction left as [| left IH]; intros w r w' Hrun; simpl in Hrun.
  - destruct (body w) as [[x | e] w1] eqn:E;
      destruct (Hbody _ _ _ E) as (m & Hm & Hlog);
      inversion Hrun; subst; exists m; (split; [lia | exact Hlog]).
  - destruct (body w) as [[x | e] w1] eqn:E;
      destruct (Hbody _ _ _ E) as (m & Hm & Hlog).
    + inversion Hrun; subst. exists m. split; [nia | exact Hlog].
    + destruct (IH _ _ _ Hrun) as (n & Hn & Hlog').
      exists (m + n)%nat. split; [nia |].
      rewrite Hlog', Hlog, <- app_assoc, repeat_app. reflexivity.
Qed.

Lemma html_get_log req (w : World DB Document) r w' :
  html_get req w = (r, w') -> log w' = log w ++ [req].
Proof.
  unfold html_get. destruct (reply (docs w)) as [r0 rest].
  intros E. inversion E. reflexivity.
Qed.

Lemma fetchSearch_body_log args w r w' :
  fetchSearch_body args w = (r, w') -> log w' = log w ++ [GetSearch (sa_query args)].
Proof.
  unfold fetchSearch_body, bind.
  destruct (html_get _ w) as [[data | e] w1] eqn:E; apply html_get_log in E;
    rewrite <- E; unfold lift; intros E'; inversion E'; reflexivity.
Qed.

Lemma fetchSeriesEpisodesStream_body_sent args w r w' :
  fetchSeriesEpisodesStream_body args w = (r, w') ->
  log w' = log w ++ [episodes_request args].
Proof.
  unfold fetchSeriesEpisodesStream_body, bind, episodes_request.
  destruct (ajax_post _ w) as [[data | e] w1] eqn:E; apply ajax_post_log in E;
    rewrite <- E.
  - destruct (negb (d_success data)); unfold throw, lift, ret.
    + intros E'; inversion E'; reflexivity.
    + destruct (parseStreamSeasons _ _); [| intros E'; inversion E'; reflexivity].
      destruct (parseStream data); [| intros E'; inversion E'; reflexivity].
      destruct (default_season _ _); [| intros E'; inversion E'; reflexivity].
      destruct (default_episode _ _); intros E'; inversion E'; reflexivity.
  - intros E'; inversion E'; reflexivity.
Qed.

Lemma fetchSearch_sent args w r w' :
  fetchSearch args 0 w = (r, w') ->
  exists n, (1 <= n <= 4)%nat /\ log w' = log w ++ repeat (GetSearch (sa_query args)) n.
Proof.
  apply (retry_loop_log_bounds (fetchSearch_body args) (GetSearch (sa_query args)) 1 1).
  intros w0 r0 w0' E0. exists 1%nat. split; [lia |].
  apply fetchSearch_body_log in E0. exact E0.
Qed.

Lemma fetchSeriesStream_sent args w r w' :
  fetchSeriesStream args 0 w = (r, w') ->
  exists n, (1 <= n <= 4)%nat /\
            log w' = log w ++ repeat (GetStream (ssa_id args) (ssa_translatorId args)
                                                (ssa_favsId args) (ssa_season args)
                                                (ssa_episode args)) n.
Proof.
  apply (retry_loop_log_bounds (fetchSeriesStream_body args) _ 1 1).
  intros w0 r0 w0' E0. exists 1%nat. split; [lia |].
  apply fetchSeriesStream_body_log in E0. exact E0.
Qed.

Lemma fetchSeriesEpisodesStream_sent args w r w' :
  fetchSeriesEpisodesStream args 0 w = (r, w') ->
  exists n, (1 <= n <= 4)%nat /\ log w' = log w ++ repeat (episodes_request args) n.
Proof.
  apply (retry_loop_log_bounds (fetchSeriesEpisodesStream_body args)
                               (episodes_request args) 1 1).
  intros w0 r0 w0' E0. exists 1%nat. split; [lia |].
  apply fetchSeriesEpisodesStream_body_sent in E0. exact E0.
Qed.

(** X1. The three functions that talk to the upstream without the database
    send one request per attempt and nothing else: a call sends the same
    request at least once and at most four times. *)
Theorem one_request_per_attempt :
  (forall args w,
      exists n, (1 <= n <= 4)%nat /\
                log (snd (fetchSearch args 0 w))
                = log w ++ repeat (GetSearch (sa_query args)) n) /\
  (forall args w,
      exists n, (1 <= n <= 4)%nat /\
                log (snd (fetchSeriesStream args 0 w))
                = log w ++ repeat (GetStream (ssa_id args) (ssa_translatorId args)
                                             (ssa_favsId args) (ssa_season args)
                                             (ssa_episode args)) n) /\
  (forall args w,
      exists n, (1 <= n <= 4)%nat /\
                log (snd (fetchSeriesEpisodesStream args 0 w))
                = log w ++ repeat (episodes_request args) n).
Proof.
  split; [| split]; intros args w.
  - destruct (fetchSearch args 0 w) as [r w'] eqn:E. eapply fetchSearch_sent, E.
  - destruct (fetchSeriesStream args 0 w) as [r w'] eqn:E.
    eapply fetchSeriesStream_sent, E.
  - destruct (fetchSeriesEpisodesStream args 0 w) as [r w'] eqn:E.
    eapply fetchSeriesEpisodesStream_sent, E.
Qed.

(** X2. The retries nest: a switch on a known tree sends only the request
    for the leaf the clamping steps end on, at most sixteen times (four
    attempts of the switch, four of the stream fetch in each), not at all when
    the leaf holds a stream and at least once when its slot is null. *)
Theorem switch_request_bound args w entry seasons st leaf :
  entry_of args = Some entry ->
  ss_seasons entry = Some seasons ->
  clamp seasons (sta_state args) = Ok (st, leaf) ->
  exists n,
    log (snd (fetchSeriesTranslator args 0 w))
    = log w ++ repeat (leaf_request args st) n /\
    (n <= 16)%nat /\
    (e_stream leaf <> None -> n = 0%nat) /\
    (e_stream leaf = None -> (1 <= n)%nat).
Proof.
  intros Hentry Hseasons Hclamp.
  destruct (fetchSeriesTranslator args 0 w) as [r w'] eqn:E. simpl.
  set (a := match e_stream leaf with Some _ => 0%nat | None => 1%nat end).
  set (b := match e_stream leaf with Some _ => 0%nat | None => 4%nat end).
  apply (retry_loop_log_bounds (fetchSeriesTranslator_body args)
                               (leaf_request args st) a b) in E.
  - destruct E as (n & Hn & Hlog). exists n. split; [exact Hlog |].
    subst a b. destruct (e_stream leaf); (split; [lia |]); split;
      intros Hs; try lia; try discriminate; contradiction.
  - intros w0 r0 w0' E0.
    rewrite (fetchSeriesTranslator_body_run args w0 entry seasons None w0 st leaf)
      in E0; [| assumption | rewrite Hseasons; reflexivity | assumption].
    subst a b. destruct (e_stream leaf).
    + inversion E0; subst. exists 0%nat. simpl. rewrite app_nil_r. split; [lia | auto].
    + unfold bind in E0.
      destruct (fetchSeriesStream (leaf_fetch args st) 0 w0) as [[x | e] w2] eqn:Es;
        destruct (fetchSeriesStream_sent _ _ _ _ Es) as (m & Hm & Hlog);
        inversion E0; subst; exists m; (split; [lia | exact Hlog]).
Qed.
End AttemptFacts.

(** ** Edges of the two switches *)

Section SwitchEdges.
Context `{Imports}.

Lemma retrying_stuck {A} (body : Fetch A) e w retry :
  body w = (Throw e, w) -> retrying body retry w = (Throw e, w).
Proof. intros E. apply retry_loop_stuck, E. Qed.

(** X3. A switch to a translator that has no entry among the item's streams
    throws TypeError on every attempt and leaves the world as it was, for the
    series and for the movie. *)
Theorem switch_without_entry :
  (forall args retry w,
      entry_of args = None ->
      fetchSeriesTranslator args retry w = (Throw (TypeError "seasons"), w)) /\
  (forall args retry w,
      movie_entry args = None ->
      fetchMovieTranslator args retry w = (Throw (TypeError "stream"), w)).
Proof.
  split; intros args retry w Hentry; apply retrying_stuck.
  - unfold fetchSeriesTranslator_body. unfold entry_of in Hentry. rewrite Hentry.
    reflexivity.
  - unfold fetchMovieTranslator_body. unfold movie_entry in Hentry. rewrite Hentry.
    reflexivity.
Qed.

Lemma switch_known_clamp_throws args retry w entry seasons err :
  entry_of args = Some entry ->
  ss_seasons entry = Some seasons ->
  clamp seasons (sta_state args) = Throw err ->
  fetchSeriesTranslator args retry w = (Throw err, w).
Proof.
  intros Hentry Hseasons Hclamp. apply retrying_stuck.
  unfold fetchSeriesTranslator_body. rewrite state_eta.
  unfold entry_of in Hentry. rewrite Hentry. simpl.
  unfold bind at 1. unfold lift at 1. rewrite Hseasons. simpl.
  unfold bind at 1. unfold ret at 1. simpl.
  unfold bind at 1. unfold lift at 1. rewrite Hclamp. reflexivity.
Qed.

(** X4. A known tree is never fetched again, even an empty one: when the
    translator's tree is the empty array, or the requested season is there
    with no episode, the switch throws TypeError on every attempt and sends
    nothing. *)
Theorem switch_on_hollow_tree args retry w entry seasons :
  entry_of args = Some entry ->
  ss_seasons entry = Some seasons ->
  seasons = [] \/
  (exists s, season_numbered (season (sta_state args)) seasons = Some s /\
             s_episodes s = []) ->
  fetchSeriesTranslator args retry w = (Throw (TypeError "number"), w).
Proof.
  intros Hentry Hseasons Hhollow.
  eapply switch_known_clamp_throws; eauto.
  unfold clamp, locate. destruct Hhollow as [-> | (s & Hs & He)].
  - reflexivity.
  - unfold season_numbered in Hs. rewrite Hs, He. reflexivity.
Qed.

(** X5. The shape of what a series switch returns. The state names a leaf
    of the tree the switch used; [initial] is there exactly when the tree had
    to be fetched; [next] is there exactly when the slot of that leaf was
    null, and then its streamFor is the returned state. *)
Theorem switch_result_shape args retry w res w' :
  fetchSeriesTranslator args retry w = (Ok res, w') ->
  exists entry tree leaf,
    entry_of args = Some entry /\
    tree_used args res = Some tree /\
    leaf_at tree (stateTo res) = Some leaf /\
    (initial res = None <-> ss_seasons entry = Some tree) /\
    (initial res = Some tree <-> ss_seasons entry = None) /\
    (next res = None <-> e_stream leaf <> None) /\
    (forall n, next res = Some n -> n_streamFor n = stateTo res).
Proof.
  unfold fetchSeriesTranslator, retrying. intros E.
  apply retry_loop_last in E as [w0 E].
  apply fetchSeriesTranslator_body_ok in E
    as (entry & tree & leaf & w1 & Hentry & Htree & Hclamp & Hleaf).
  destruct (clamp_names_leaf _ _ _ _ Hclamp) as (s & _ & _ & _ & _ & Hat).
  exists entry, tree, leaf. split; [exact Hentry |].
  unfold tree_used. rewrite Hentry.
  apply known_or_fetched_ok in Htree as [(Hs & Hi & _) | (Hs & Hi & _)];
    rewrite Hs, Hi.
  - split; [reflexivity |]. split; [exact Hat |].
    split; [tauto |]. split; [split; discriminate |].
    destruct (e_stream leaf) as [x |].
    + destruct Hleaf as [Hn _]. rewrite Hn. split; [split; auto; discriminate |].
      intros n Hn'. discriminate.
    + destruct Hleaf as (stream & _ & Hn). rewrite Hn.
      split; [split; [discriminate | intros Hc; contradiction] |].
      intros n Hn'. inversion Hn'. reflexivity.
  - split; [reflexivity |]. split; [exact Hat |].
    split; [split; discriminate |]. split; [tauto |].
    destruct (e_stream leaf) as [x |].
    + destruct Hleaf as [Hn _]. rewrite Hn. split; [split; auto; discriminate |].
      intros n Hn'. discriminate.
    + destruct Hleaf as (stream & _ & Hn). rewrite Hn.
      split; [split; [discriminate | intros Hc; contradiction] |].
      intros n Hn'. inversion Hn'. reflexivity.
Qed.

(** X6. fetchTranslator branches on the kind of the item alone: for a series
    it returns what fetchSeriesTranslator returned for the same translator
    and state, for a movie what fetchMovieTranslator returned, and never the
    response of the other kind. *)
Theorem fetchTranslator_dispatch args retry w res w' :
  fetchTranslator args retry w = (Ok res, w') ->
  match ta_item args, res with
  | Series item, SeriesSwitch r =>
      exists w0, fetchSeriesTranslator {| sta_item := item;
                                          sta_translatorId := ta_translatorId args;
                                          sta_state := ta_state args |} 0 w0
                 = (Ok r, w')
  | Movie item, MovieSwitch r =>
      exists w0, fetchMovieTranslator {| mta_item := item;
                                         mta_translatorId := ta_translatorId args |} 0 w0
                 = (Ok r, w')
  | _, _ => False
  end.
Proof.
  unfold fetchTranslator, retrying. intros E.
  apply retry_loop_last in E as [w0 E]. unfold fetchTranslator_body in E.
  destruct (ta_item args) as [item | item];
    apply bind_ok in E as (r & w1 & Hr & E); apply ret_ok in E as [-> ->]; eauto.
Qed.
End SwitchEdges.

(** ** Assembled items *)

Section ItemFacts.
Context `{Imports}.

Lemma find_map_slot {A B} (f : A -> B) (p : B -> bool) (l : list A) :
  find p (map f l) = option_map f (find (fun x => p (f x)) l).
Proof.
  induction l as [| x l IH]; simpl; [reflexivity |].
  destruct (p (f x)); [reflexivity | exact IH].
Qed.

Lemma find_present {A} (p : A -> bool) (l : list A) x :
  In x l -> p x = true -> exists y, find p l = Some y /\ In y l /\ p y = true.
Proof.
  intros Hin Hp. destruct (find p l) as [y |] eqn:E.
  - apply find_some in E as [Hy Hpy]. eauto.
  - apply (find_none _ _ E) in Hin. congruence.
Qed.

Lemma fetchItemMovie_ok args retry w item w' :
  fetchItemMovie args retry w = (Ok item, w') ->
  exists translator stream,
    ima_translator args = Some translator /\
    item = {| m_base := with_ogType VideoMovie (ima_baseItem args);
              m_streams := map (movie_slot translator stream)
                               (b_translators (ima_baseItem args)) |}.
Proof.
  unfold fetchItemMovie, retrying. intros E.
  apply retry_loop_last in E as [w0 E]. unfold fetchItemMovie_body in E.
  apply bind_ok in E as (translator & w1 & Htr & E).
  apply lift_ok in Htr as [Htr ->].
  apply bind_ok in E as (stream & w2 & _ & E).
  apply ret_ok in E as [-> ->].
  exists translator, stream. split; [| reflexivity].
  destruct (ima_translator args); [inversion Htr; reflexivity | discriminate].
Qed.

Lemma fetchItemSeries_ok args retry w item w' :
  fetchItemSeries args retry w = (Ok item, w') ->
  exists translator res w0 info,
    isa_translator args = Some translator /\
    fetchSeriesEpisodesStream
      {| esa_id := b_id (isa_baseItem args);
         esa_translatorId := tr_id translator;
         esa_favsId := b_favsId (isa_baseItem args);
         esa_season := isa_season args;
         esa_episode := isa_episode args |} 0 w0 = (Ok res, w') /\
    item = {| se_base := with_ogType VideoTvSeries (isa_baseItem args);
              se_episodesInfo := info;
              se_streams :=
                map (series_entry translator
                       (tree_of (r_seasons res) (r_stream res) (r_streamFor res)))
                    (b_translators (isa_baseItem args)) |}.
Proof.
  unfold fetchItemSeries, retrying. intros E.
  apply retry_loop_last in E as [w0 E]. unfold fetchItemSeries_body in E.
  apply bind_ok in E as (info & w1 & _ & E).
  apply bind_ok in E as (translator & w2 & Htr & E).
  apply lift_ok in Htr as [Htr ->].
  apply bind_ok in E as (res & w3 & Hres & E).
  apply ret_ok in E as [-> ->].
  exists translator, res, w1, info. split; [| split; [exact Hres | reflexivity]].
  destruct (isa_translator args); [inversion Htr; reflexivity | discriminate].
Qed.

(** Only the leaf numbered [streamFor] is filled, and with [stream]. *)
Lemma tree_of_filled seasons stream streamFor s leaf x :
  In s (tree_of seasons stream streamFor) ->
  In leaf (s_episodes s) ->
  e_stream leaf = Some x ->
  x = stream /\ s_number s = sf_season streamFor /\ e_number leaf = sf_episode streamFor.
Proof.
  unfold tree_of. intros Hs Hleaf Hx.
  apply in_map_iff in Hs as (ps & <- & _). simpl in *.
  apply in_map_iff in Hleaf as (pe & <- & _). simpl in *.
  destruct (Z.eqb_spec (ps_number ps) (sf_season streamFor));
    destruct (Z.eqb_spec (pe_number pe) (sf_episode streamFor));
    simpl in Hx; try discriminate.
  inversion Hx. auto.
Qed.

Lemma tree_streams_in seasons x :
  In x (tree_streams seasons) ->
  exists s leaf, In s seasons /\ In leaf (s_episodes s) /\ e_stream leaf = Some x.
Proof.
  unfold tree_streams. intros Hx.
  apply in_flat_map in Hx as (s & Hs & Hx).
  apply in_flat_map in Hx as (leaf & Hleaf & Hx).
  exists s, leaf. split; [exact Hs |]. split; [exact Hleaf |].
  destruct (e_stream leaf) as [y |]; simpl in Hx; [| contradiction].
  destruct Hx as [-> | []]. reflexivity.
Qed.

(** The item is the work of the last attempt: the stream, or the tree, is
    what the fetch of that attempt gave. *)
Lemma fetchItemMovie_at args retry w item w' :
  fetchItemMovie args retry w = (Ok item, w') ->
  exists translator stream i,
    (i <= 3 - retry)%nat /\
    ima_translator args = Some translator /\
    fetchMovieStream
      {| msa_id := b_id (ima_baseItem args);
         msa_translatorId := tr_id translator;
         msa_favsId := b_favsId (ima_baseItem args);
         msa_isCamrip := tr_isCamrip translator;
         msa_isAds := tr_isAds translator;
         msa_isDirector := tr_isDirector translator |} 0
      (world_after (fetchItemMovie_body args) i w) = (Ok stream, w') /\
    item = {| m_base := with_ogType VideoMovie (ima_baseItem args);
              m_streams := map (movie_slot translator stream)
                               (b_translators (ima_baseItem args)) |}.
Proof.
  unfold fetchItemMovie, retrying. intros E.
  apply retry_loop_inv in E as (i & Hi & _ & E & _).
  remember (world_after (fetchItemMovie_body args) i w) as w0 eqn:Ew0.
  unfold fetchItemMovie_body in E.
  apply bind_ok in E as (translator & w1 & Htr & E).
  apply lift_ok in Htr as [Htr <-].
  apply bind_ok in E as (stream & w2 & Hstream & E).
  apply ret_ok in E as [-> ->].
  exists translator, stream, i. rewrite <- Ew0.
  split; [exact Hi |]. split; [| split; [exact Hstream | reflexivity]].
  destruct (ima_translator args); [inversion Htr; reflexivity | discriminate].
Qed.

Lemma fetchItemSeries_at args retry w item w' :
  fetchItemSeries args retry w = (Ok item, w') ->
  exists translator res i info,
    (i <= 3 - retry)%nat /\
    parseItemDocumentEpisodes (isa_document args) = Ok info /\
    isa_translator args = Some translator /\
    fetchSeriesEpisodesStream
      {| esa_id := b_id (isa_baseItem args);
         esa_translatorId := tr_id translator;
         esa_favsId := b_favsId (isa_baseItem args);
         esa_season := isa_season args;
         esa_episode := isa_episode args |} 0
      (world_after (fetchItemSeries_body args) i w) = (Ok res, w') /\
    item = {| se_base := with_ogType VideoTvSeries (isa_baseItem args);
              se_episodesInfo := info;
              se_streams :=
                map (series_entry translator
                       (tree_of (r_seasons res) (r_stream res) (r_streamFor res)))
                    (b_translators (isa_baseItem args)) |}.
Proof.
  unfold fetchItemSeries, retrying. intros E.
  apply retry_loop_inv in E as (i & Hi & _ & E & _).
  remember (world_after (fetchItemSeries_body args) i w) as w0 eqn:Ew0.
  unfold fetchItemSeries_body in E.
  apply bind_ok in E as (info & w1 & Hinfo & E).
  apply lift_ok in Hinfo as [Hinfo <-].
  apply bind_ok in E as (translator & w2 & Htr & E).
  apply lift_ok in Htr as [Htr <-].
  apply bind_ok in E as (res & w3 & Hres & E).
  apply ret_ok in E as [-> ->].
  exists translator, res, i, info. rewrite <- Ew0.
  split; [exact Hi |]. split; [exact Hinfo |].
  split; [| split; [exact Hres | reflexivity]].
  destruct (isa_translator args); [inversion Htr; reflexivity | discriminate].
Qed.

(** The leaves numbered [streamFor] are filled with [stream]. *)
Lemma tree_of_target seasons stream streamFor s leaf :
  In s (tree_of seasons stream streamFor) ->
  In leaf (s_episodes s) ->
  s_number s = sf_season streamFor ->
  e_number leaf = sf_episode streamFor ->
  e_stream leaf = Some stream.
Proof.
  unfold tree_of. intros Hs Hleaf Hn He.
  apply in_map_iff in Hs as (ps & <- & _). simpl in *.
  apply in_map_iff in Hleaf as (pe & <- & _). simpl in *.
  rewrite Hn, He, !Z.eqb_refl. reflexivity.
Qed.

(** X7. What fetchItemMovie assembles. The item is the work of one of the
    at most four attempts, the last: in the world that attempt began in,
    fetchMovieStream, asked for the active translator with the base item's
    id and favsId and the translator's flags, gave a stream, and the world is
    left as that call left it. The item keeps the base item's translators and
    is tagged a movie; its streams are one slot per translator, in the
    translators' order; a slot is filled exactly when its translator id is
    the active translator's, with the stream that call gave; and a translator
    id has a slot exactly when it has a translator. *)
Theorem assembled_movie args retry w item w' :
  fetchItemMovie args retry w = (Ok item, w') ->
  exists translator stream i,
    (i <= 3 - retry)%nat /\
    ima_translator args = Some translator /\
    fetchMovieStream
      {| msa_id := b_id (ima_baseItem args);
         msa_translatorId := tr_id translator;
         msa_favsId := b_favsId (ima_baseItem args);
         msa_isCamrip := tr_isCamrip translator;
         msa_isAds := tr_isAds translator;
         msa_isDirector := tr_isDirector translator |} 0
      (world_after (fetchItemMovie_body args) i w) = (Ok stream, w') /\
    b_ogType (m_base item) = VideoMovie /\
    b_translators (m_base item) = b_translators (ima_baseItem args) /\
    map ms_translatorId (m_streams item) = map tr_id (b_translators (m_base item)) /\
    (forall slot, In slot (m_streams item) ->
                  ms_stream slot = if Z.eqb (ms_translatorId slot) (tr_id translator)
                                   then Some stream else None) /\
    (forall translatorId,
        movie_entry {| mta_item := item; mta_translatorId := translatorId |} = None <->
        movie_translator {| mta_item := item; mta_translatorId := translatorId |} = None).
Proof.
  intros E.
  apply fetchItemMovie_at in E as (translator & stream & i & Hi & Htr & Hstream & ->).
  exists translator, stream, i.
  split; [exact Hi |]. split; [exact Htr |]. split; [exact Hstream |]. simpl.
  split; [reflexivity |]. split; [reflexivity |]. split; [| split].
  - rewrite map_map. reflexivity.
  - intros slot Hin. apply in_map_iff in Hin as (t & <- & _). reflexivity.
  - intros translatorId. unfold movie_entry, movie_translator. simpl.
    rewrite find_map_slot. simpl.
    destruct (find _ (b_translators (ima_baseItem args))); simpl; split;
      intros E; (discriminate || reflexivity).
Qed.

(** X8. After fetchItemMovie, the switch to the translator the item was
    assembled for finds its slot filled: it ends at once, sends nothing and
    reports no stream. *)
Theorem assembled_movie_switch_back args retry w item w' translator :
  fetchItemMovie args retry w = (Ok item, w') ->
  ima_translator args = Some translator ->
  In translator (b_translators (ima_baseItem args)) ->
  forall w2,
    fetchMovieTranslator {| mta_item := item; mta_translatorId := tr_id translator |} 0 w2
    = (Ok {| stream := None |}, w2).
Proof.
  intros E Htr Hin w2.
  apply fetchItemMovie_ok in E as (translator' & stream & Htr' & ->).
  rewrite Htr in Htr'. inversion Htr'; subst translator'.
  destruct (find_present (fun t => Z.eqb (tr_id t) (tr_id translator)) _ _ Hin
                         (Z.eqb_refl _)) as (t & Hfind & _ & Ht).
  apply retrying_first.
  apply (fetchMovieTranslator_body_hit _ _ (movie_slot translator stream t) stream).
  - unfold movie_entry. simpl. rewrite find_map_slot. simpl. rewrite Hfind. reflexivity.
  - simpl. rewrite Ht. reflexivity.
Qed.

(** X9. What fetchItemSeries assembles. The item is the work of one of the
    at most four attempts, the last: in the world that attempt began in,
    fetchSeriesEpisodesStream, asked for the active translator with the base
    item's id and favsId and the hints, gave seasons, a stream and the leaf
    it is for, and the world is left as that call left it. The item is
    tagged a series, carries what parseItemDocumentEpisodes reads in the
    document, and has one entry per translator, in the translators' order; an
    entry has a tree exactly when its translator id is the active
    translator's, and then the tree made of the seasons that call gave: one
    season per season given and one leaf per episode given, with their
    numbers, in their order; a leaf is filled exactly when its season and
    episode numbers are those the stream is for, with the stream that call
    gave. *)
Theorem assembled_series args retry w item w' :
  fetchItemSeries args retry w = (Ok item, w') ->
  exists translator res i,
    (i <= 3 - retry)%nat /\
    isa_translator args = Some translator /\
    fetchSeriesEpisodesStream
      {| esa_id := b_id (isa_baseItem args);
         esa_translatorId := tr_id translator;
         esa_favsId := b_favsId (isa_baseItem args);
         esa_season := isa_season args;
         esa_episode := isa_episode args |} 0
      (world_after (fetchItemSeries_body args) i w) = (Ok res, w') /\
    b_ogType (se_base item) = VideoTvSeries /\
    parseItemDocumentEpisodes (isa_document args) = Ok (se_episodesInfo item) /\
    map ss_translatorId (se_streams item) = map tr_id (b_translators (se_base item)) /\
    exists tree,
      (forall entry, In entry (se_streams item) ->
                     ss_seasons entry = if Z.eqb (ss_translatorId entry) (tr_id translator)
                                        then Some tree else None) /\
      map s_number tree = map ps_number (r_seasons res) /\
      map (fun s => map e_number (s_episodes s)) tree
      = map (fun s => map pe_number (ps_episodes s)) (r_seasons res) /\
      (forall s leaf,
          In s tree -> In leaf (s_episodes s) ->
          s_number s = sf_season (r_streamFor res) ->
          e_number leaf = sf_episode (r_streamFor res) ->
          e_stream leaf = Some (r_stream res)) /\
      (forall s leaf x,
          In s tree -> In leaf (s_episodes s) -> e_stream leaf = Some x ->
          x = r_stream res /\ s_number s = sf_season (r_streamFor res) /\
          e_number leaf = sf_episode (r_streamFor res)).
Proof.
  intros E. apply fetchItemSeries_at in E
    as (translator & res & i & info & Hi & Hinfo & Htr & Hres & ->).
  exists translator, res, i.
  split; [exact Hi |]. split; [exact Htr |]. split; [exact Hres |]. simpl.
  split; [reflexivity |]. split; [exact Hinfo |].
  split; [rewrite map_map; reflexivity |].
  exists (tree_of (r_seasons res) (r_stream res) (r_streamFor res)).
  split; [| split; [| split; [| split]]].
  - intros entry Hin. apply in_map_iff in Hin as (t & <- & _). reflexivity.
  - unfold tree_of. rewrite map_map. reflexivity.
  - unfold tree_of. rewrite map_map. apply map_ext. intros ps. simpl.
    rewrite map_map. reflexivity.
  - intros s leaf. apply tree_of_target.
  - intros s leaf x. apply tree_of_filled.
Qed.

(** X10. After fetchItemSeries without hints, the switch to the translator
    the item was assembled for needs no request when it asks for the leaf the
    tree was fetched for, or for a season the tree does not have: it ends at
    once on that leaf, the first episode of the first season. *)
Theorem assembled_series_switch_back args retry w item w' translator :
  fetchItemSeries args retry w = (Ok item, w') ->
  isa_season args = None ->
  isa_episode args = None ->
  isa_translator args = Some translator ->
  In translator (b_translators (isa_baseItem args)) ->
  exists tree st,
    (forall requested,
        tree_used {| sta_item := item; sta_translatorId := tr_id translator;
                     sta_state := requested |}
                  {| stateTo := st; initial := None; next := None |} = Some tree) /\
    forall requested w2,
      requested = st \/ season_numbered (season requested) tree = None ->
      fetchSeriesTranslator {| sta_item := item; sta_translatorId := tr_id translator;
                               sta_state := requested |} 0 w2
      = (Ok {| stateTo := st; initial := None; next := None |}, w2).
Proof.
  intros E Hseason Hepisode Htr Hin.
  apply fetchItemSeries_ok in E
    as (translator' & res & w0 & info & Htr' & Hres & ->).
  rewrite Htr in Htr'. inversion Htr'; subst translator'.
  apply fetchSeriesEpisodesStream_ok in Hres as [Hs He]. simpl in Hs, He.
  rewrite Hseason in Hs. rewrite Hepisode in He.
  apply default_episode_first in He as (s0 & rest & e0 & rest' & E1 & E2 & E3);
    [| reflexivity].
  unfold default_season in Hs. rewrite E1 in Hs. simpl in Hs. inversion Hs as [Hs'].
  destruct (r_streamFor res) as [sfs sfe]. simpl in Hs', E3. subst sfs sfe.
  destruct (find_present (fun t => Z.eqb (tr_id t) (tr_id translator)) _ _ Hin
                         (Z.eqb_refl _)) as (t & Hfind & _ & Ht).
  set (tree := tree_of (r_seasons res) (r_stream res)
                       {| sf_season := ps_number s0; sf_episode := pe_number e0 |}).
  set (st := {| season := Some (ps_number s0); episode := Some (pe_number e0) |}).
  assert (Hentry : forall requested,
             entry_of {| sta_item :=
                           {| se_base := with_ogType VideoTvSeries (isa_baseItem args);
                              se_episodesInfo := info;
                              se_streams := map (series_entry translator tree)
                                                (b_translators (isa_baseItem args)) |};
                         sta_translatorId := tr_id translator;
                         sta_state := requested |}
             = Some (series_entry translator tree t)).
  { intros requested. unfold entry_of. simpl. rewrite find_map_slot. simpl.
    rewrite Hfind. reflexivity. }
  assert (Hknown : ss_seasons (series_entry translator tree t) = Some tree)
    by (simpl; rewrite Ht; reflexivity).
  set (leaf0 := {| e_number := pe_number e0; e_title := pe_title e0;
                   e_stream := Some (r_stream res) |}).
  assert (Htree : exists S0 rest0 rest1,
             tree = S0 :: rest0 /\ s_number S0 = ps_number s0 /\
             s_episodes S0 = leaf0 :: rest1).
  { subst tree leaf0. rewrite E1. simpl. rewrite E2. simpl.
    rewrite !Z.eqb_refl. simpl. eauto 6. }
  destruct Htree as (S0 & rest0 & rest1 & Ht0 & Hn0 & He0).
  exists tree, st. split.
  - intros requested. unfold tree_used. rewrite Hentry, Hknown. reflexivity.
  - intros requested w2 Hreq.
    assert (Hclamp : clamp tree requested = Ok (st, leaf0)).
    { destruct Hreq as [-> | Habsent].
      - apply (clamp_present tree st S0 leaf0).
        + unfold season_numbered. rewrite Ht0. simpl. rewrite Hn0, Z.eqb_refl.
          reflexivity.
        + unfold episode_numbered. rewrite He0. simpl. rewrite Z.eqb_refl. reflexivity.
      - rewrite (clamp_absent tree requested S0 rest0 leaf0 rest1 Habsent Ht0 He0).
        rewrite Hn0. reflexivity. }
    eapply switch_resolved.
    + apply Hentry.
    + rewrite Hknown. reflexivity.
    + exact Hclamp.
    + reflexivity.
Qed.
End ItemFacts.

(** ** Hints of the tree fetch *)

Section HintFacts.
Context `{Imports}.

(** X11. Hints are echoed, not checked against the page. With a season hint
    and an episode hint that are both other than 0, every result of
    fetchSeriesEpisodesStream has streamFor equal to the hints, and such a
    result is returned as soon as the upstream answers and the page parses,
    whatever seasons the page has, even none. *)
Theorem hints_are_echoed args w s e :
  esa_season args = Some s -> s <> 0 ->
  esa_episode args = Some e -> e <> 0 ->
  (forall res w',
      fetchSeriesEpisodesStream args 0 w = (Ok res, w') ->
      r_streamFor res = {| sf_season := s; sf_episode := e |}) /\
  (forall data replies seasons stream,
      posts w = Ok data :: replies ->
      d_success data = true ->
      parseStreamSeasons (d_seasons data) (d_episodes data) = Ok seasons ->
      parseStream data = Ok stream ->
      exists w',
        fetchSeriesEpisodesStream args 0 w
        = (Ok {| r_seasons := seasons; r_stream := stream;
                 r_streamFor := {| sf_season := s; sf_episode := e |} |}, w') /\
        log w' = log w ++ [episodes_request args]).
Proof.
  intros Hseason Hs Hepisode He.
  assert (Hts : truthy_number (esa_season args) = Some s).
  { rewrite Hseason. simpl. destruct (Z.eqb_spec s 0); [contradiction | reflexivity]. }
  assert (Hte : truthy_number (esa_episode args) = Some e).
  { rewrite Hepisode. simpl. destruct (Z.eqb_spec e 0); [contradiction | reflexivity]. }
  split.
  - intros res w' Hrun. apply fetchSeriesEpisodesStream_ok in Hrun as [H1 H2].
    unfold default_season in H1. unfold default_episode in H2.
    rewrite Hts in H1. rewrite Hte in H2. inversion H1. inversion H2.
    destruct (r_streamFor res). simpl in *. congruence.
  - intros data replies seasons stream Hposts Hok Hseasons Hstream.
    apply (fetchSeriesEpisodesStream_run args w data replies seasons stream _ _
             Hposts Hok Hseasons Hstream).
    + unfold default_season. rewrite Hts. reflexivity.
    + unfold default_episode. rewrite Hte. reflexivity.
Qed.

(** X12. A hint the page does not have loses the stream. When fetchItemSeries
    is given a season hint other than 0 and the tree it assembles has no
    season with that number, no leaf of any tree of the item holds a stream:
    the stream that came with the tree is dropped. *)
Theorem hinted_season_not_on_page args retry w item w' s :
  fetchItemSeries args retry w = (Ok item, w') ->
  isa_season args = Some s -> s <> 0 ->
  forall entry tree,
    In entry (se_streams item) ->
    ss_seasons entry = Some tree ->
    (forall s', In s' tree -> s_number s' <> s) ->
    tree_streams tree = [].
Proof.
  intros E Hseason Hs entry tree Hin Htree Habsent.
  apply fetchItemSeries_ok in E
    as (translator & res & w0 & info & Htr & Hres & ->).
  apply fetchSeriesEpisodesStream_ok in Hres as [H1 _]. simpl in H1.
  unfold default_season in H1. rewrite Hseason in H1. simpl in H1.
  destruct (Z.eqb_spec s 0); [contradiction |]. inversion H1 as [Hsf].
  simpl in Hin. apply in_map_iff in Hin as (t & <- & _). simpl in Htree.
  destruct (Z.eqb (tr_id t) (tr_id translator)); [| discriminate].
  inversion Htree; subst tree.
  destruct (tree_streams _) as [| x xs] eqn:Ex; [reflexivity |].
  assert (Hx : In x (tree_streams (tree_of (r_seasons res) (r_stream res)
                                           (r_streamFor res))))
    by (rewrite Ex; left; reflexivity).
  apply tree_streams_in in Hx as (s' & leaf & Hs' & Hleaf & Hstream).
  destruct (tree_of_filled _ _ _ _ _ _ Hs' Hleaf Hstream) as (_ & Hn & _).
  exfalso. apply (Habsent s' Hs'). congruence.
Qed.
End HintFacts.

(** ** Sizes of the stream details *)

Section SizeFacts.
Context `{Imports}.

Lemma fetchStreamDownloadSize_body_ok args w z w' :
  fetchStreamDownloadSize_body args w = (Ok z, w') ->
  z_id z = dsa_qualityId args /\ z_downloadSizeStr z = bytesToStr (z_downloadSize z).
Proof.
  unfold fetchStreamDownloadSize_body. intros E.
  apply bind_ok in E as (size & w1 & _ & E). apply ret_ok in E as [-> _]. auto.
Qed.

Lemma deliver_sized q p w p' now w' :
  deliver p w = ((p', now), w') -> promise_sized q p -> promise_sized q p'.
Proof.
  unfold deliver. destruct p as [r | [z | err] body [| ahead]].
  - intros E. inversion E; subst. auto.
  - intros E [Hr _]. inversion E; subst. exact Hr.
  - intros E [Hr _]. inversion E; subst. exact Hr.
  - intros E _. inversion E; subst. simpl. intros z Ez. discriminate.
  - destruct (body w) as [r w1] eqn:Eb. intros E [_ Hb]. inversion E; subst.
    split; [| exact Hb]. intros z ->. eapply Hb, Eb.
Qed.

Lemma deliver_nth_sized j :
  forall qs ps w ps' now w',
    deliver_nth j ps w = ((ps', now), w') ->
    Forall2 promise_sized qs ps -> Forall2 promise_sized qs ps'.
Proof.
  induction j as [| j IH]; intros qs ps w ps' now w' E Hall;
    destruct Hall as [| q p qs ps Hp Hall]; simpl in E.
  - inversion E; subst. constructor.
  - destruct (deliver p w) as [[p1 now1] w1] eqn:Ea. inversion E; subst.
    constructor; [eapply deliver_sized; eauto | exact Hall].
  - inversion E; subst. constructor.
  - destruct (deliver_nth j ps w) as [[ps1 now1] w1] eqn:Ea. inversion E; subst.
    constructor; [exact Hp | eapply IH; eauto].
Qed.

Lemma step_sized i qs fan w fan' w' :
  step i fan w = (fan', w') ->
  Forall2 promise_sized qs (promises fan) -> Forall2 promise_sized qs (promises fan').
Proof.
  unfold step. destruct (rejected fan); [intros E; inversion E; subst; auto |].
  destruct i as [| j].
  - destruct (deliver (thumbnailsPromise fan) w) as [[p' now] w1].
    intros E. inversion E; subst. auto.
  - destruct (deliver_nth j (promises fan) w) as [[ps' now] w1] eqn:Ea.
    intros E. inversion E; subst. simpl. eapply deliver_nth_sized, Ea.
Qed.

Lemma run_sized qs order :
  forall fan w fan' w',
    run order fan w = (fan', w') ->
    Forall2 promise_sized qs (promises fan) -> Forall2 promise_sized qs (promises fan').
Proof.
  induction order as [| i order IH]; intros fan w fan' w' E Hall; simpl in E.
  - inversion E; subst. exact Hall.
  - destruct (step i fan w) as [fan1 w1] eqn:Es.
    eapply IH; [exact E |]. eapply step_sized; eauto.
Qed.

Lemma await_pending_sized q ahead body :
  forall r w z w',
    await_pending ahead body r w = (Ok z, w') ->
    (forall z, r = Ok z -> sized q z) ->
    (forall w z w', body w = (Ok z, w') -> sized q z) ->
    sized q z.
Proof.
  induction ahead as [| ahead IH]; intros r w z w' E Hr Hb; simpl in E.
  - destruct r as [a | err]; inversion E; subst. apply Hr. reflexivity.
  - destruct r as [a | err]; [inversion E; subst; apply Hr; reflexivity |].
    destruct (body w) as [r' w1] eqn:Eb.
    eapply IH; [exact E | | exact Hb]. intros z' ->. eapply Hb, Eb.
Qed.

Lemma await_sized q p w z w' :
  await p w = (Ok z, w') -> promise_sized q p -> sized q z.
Proof.
  unfold await. destruct p as [r | r body ahead].
  - intros E Hp. inversion E; subst. apply Hp. reflexivity.
  - intros E [Hr Hb]. eapply await_pending_sized; eauto.
Qed.

Lemma wait_each_sized qs :
  forall ps w ps' now w',
    wait_each ps w = ((ps', now), w') ->
    Forall2 promise_sized qs ps -> Forall2 promise_sized qs ps'.
Proof.
  induction qs as [| q qs IH]; intros ps w ps' now w' E Hall;
    inversion Hall as [| q' p qs' rest Hp Hrest]; subst; simpl in E.
  - inversion E; subst. constructor.
  - destruct (await p w) as [[a | err] w1] eqn:Ea.
    + destruct (wait_each rest w1) as [[rest' now1] w2] eqn:Ew. inversion E; subst.
      constructor; [| eapply IH; eauto].
      intros z Ez. inversion Ez; subst. eapply await_sized; eauto.
    + inversion E; subst. constructor; [| exact Hrest]. intros z Ez. discriminate.
Qed.

Lemma finish_sized qs fan w fan' w' :
  finish fan w = (fan', w') ->
  Forall2 promise_sized qs (promises fan) -> Forall2 promise_sized qs (promises fan').
Proof.
  unfold finish. destruct (rejected fan); [intros E; inversion E; subst; auto |].
  destruct (await (thumbnailsPromise fan) w) as [[th | err] w1].
  - destruct (wait_each (promises fan) w1) as [[ps now] w2] eqn:Ew.
    intros E. inversion E; subst. simpl. eapply wait_each_sized, Ew.
  - intros E. inversion E; subst. auto.
Qed.

Lemma started_sized stream (qs : list Quality) :
  forall w ps w',
    start_each (map (fun q => fetchStreamDownloadSize_body
                                {| dsa_stream := stream; dsa_qualityId := q_id q |})
                    qs) w = (ps, w') ->
    Forall2 promise_sized qs ps.
Proof.
  induction qs as [| q qs IH]; intros w ps w' E; simpl in E.
  - inversion E; subst. constructor.
  - unfold start in E.
    destruct (fetchStreamDownloadSize_body _ w) as [r w1] eqn:Eb.
    destruct (start_each _ w1) as [ps1 w2] eqn:Es. inversion E; subst.
    constructor; [| eapply IH, Es]. split.
    + intros z ->. apply fetchStreamDownloadSize_body_ok in Eb. exact Eb.
    + intros w0 z w3 Eb'. apply fetchStreamDownloadSize_body_ok in Eb'. exact Eb'.
Qed.

Lemma settled_sized qs :
  forall zs,
    Forall2 promise_sized qs (map (fun z => Settled (Ok z)) zs) -> Forall2 sized qs zs.
Proof.
  induction qs as [| q qs IH]; intros zs Hall;
    destruct zs as [| z zs]; inversion Hall; subst; constructor; auto.
Qed.

Lemma sized_all (qs : list Quality) zs :
  Forall2 sized qs zs ->
  map z_id zs = map q_id qs /\
  Forall (fun z => z_downloadSizeStr z = bytesToStr (z_downloadSize z)) zs.
Proof.
  induction 1 as [| q z qs zs [Hid Hstr] _ [IHid IHstr]]; simpl.
  - auto.
  - split; [congruence | constructor; assumption].
Qed.

(** X13. Whatever the order in which the replies reach the branches, what
    fetchStreamDetails returns lists one size per quality of the stream, in
    the order of the qualities, each carrying the id of its quality and the
    text bytesToStr gives for its size. *)
Theorem sizes_follow_qualities schedule args retry w d w' :
  fetchStreamDetails schedule args retry w = (Ok d, w') ->
  map z_id (sizes d) = map q_id (qualities (da_stream args)) /\
  Forall (fun z => z_downloadSizeStr z = bytesToStr (z_downloadSize z)) (sizes d).
Proof.
  unfold fetchStreamDetails, retrying. intros E.
  apply retry_loop_last in E as [w0 E].
  rewrite fetchStreamDetails_body_eq in E.
  destruct (attempt_settled schedule args w0) as [Hs _].
  pose proof (join_details_settled _ (snd (details_branches schedule args w0)) Hs)
    as Hjoin.
  assert (Hsized : Forall2 promise_sized (qualities (da_stream args))
                           (promises (fst (details_branches schedule args w0)))).
  { unfold details_branches, start.
    destruct (fetchStreamThumbnails_body _ w0) as [r w1].
    destruct (start_each _ w1) as [ps w2] eqn:Es.
    apply started_sized in Es.
    destruct (run (schedule w0) _ w2) as [fan w3] eqn:Er.
    apply (run_sized (qualities (da_stream args))) in Er; [| exact Es].
    destruct (finish fan w3) as [fan' w4] eqn:Ef. simpl.
    eapply finish_sized; eauto. }
  destruct (rejected (fst (details_branches schedule args w0))) as [e |].
  - rewrite Hjoin in E. discriminate.
  - destruct Hjoin as (th & l & _ & Hl & Hjoin). rewrite Hjoin in E.
    inversion E; subst. simpl. rewrite Hl in Hsized.
    apply sized_all, settled_sized, Hsized.
Qed.
End SizeFacts.

(** ** The active translator *)

Section TranslatorFacts.
Context `{Imports}.

Lemma pick_translator_in translatorId translators t :
  pick_translator translatorId translators = Some t -> In t translators.
Proof.
  unfold pick_translator.
  destruct (find _ translators) as [t' |] eqn:E.
  - intros E'. inversion E'; subst. apply find_some in E as [Hin _]. exact Hin.
  - destruct translators as [| t0 rest]; simpl; [discriminate |].
    intros E'. inversion E'. left. reflexivity.
Qed.

(** X14. The choice of the active translator in fetchItem. It is undefined
    only when the item has no translator, and otherwise one of the item's
    translators: the first with the requested id when there is one, and the
    first of the list when the id is missing or not among them. *)
Theorem active_translator translatorId translators :
  (pick_translator translatorId translators = None <-> translators = []) /\
  (forall t, pick_translator translatorId translators = Some t -> In t translators) /\
  (forall t', In t' translators -> translatorId = Some (tr_id t') ->
              exists t, pick_translator translatorId translators = Some t /\
                        tr_id t = tr_id t') /\
  ((forall t', In t' translators -> translatorId <> Some (tr_id t')) ->
   pick_translator translatorId translators = head translators).
Proof.
  split; [| split; [| split]].
  - unfold pick_translator. destruct (find _ translators) as [t |] eqn:E.
    + split; [discriminate |]. intros ->. discriminate.
    + destruct translators; simpl; split; auto; discriminate.
  - intros t. apply pick_translator_in.
  - intros t' Hin ->. unfold pick_translator.
    destruct (find_present (fun t => strict_eq (tr_id t) (Some (tr_id t'))) _ _ Hin)
      as (t & Hfind & _ & Ht); [simpl; apply Z.eqb_refl |].
    rewrite Hfind. exists t. split; [reflexivity |].
    simpl in Ht. apply Z.eqb_eq in Ht. exact Ht.
  - intros Hnone. unfold pick_translator.
    destruct (find _ translators) as [t |] eqn:E; [| reflexivity].
    apply find_some in E as [Hin Ht]. exfalso. apply (Hnone t Hin).
    destruct translatorId as [n |]; [| discriminate].
    simpl in Ht. apply Z.eqb_eq in Ht. congruence.
Qed.

(** X15. Without an active translator nothing is assembled: fetchItemMovie
    throws TypeError on every attempt and leaves the world as it was, and so
    does fetchItemSeries once the episodes of the document have parsed. *)
Theorem item_without_translator :
  (forall args retry w,
      ima_translator args = None ->
      fetchItemMovie args retry w = (Throw (TypeError "id"), w)) /\
  (forall args retry w info,
      isa_translator args = None ->
      parseItemDocumentEpisodes (isa_document args) = Ok info ->
      fetchItemSeries args retry w = (Throw (TypeError "id"), w)).
Proof.
  split.
  - intros args retry w Htr. apply retrying_stuck.
    unfold fetchItemMovie_body. rewrite Htr. reflexivity.
  - intros args retry w info Htr Hinfo. apply retrying_stuck.
    unfold fetchItemSeries_body, bind at 1. unfold lift at 1.
    rewrite Hinfo, Htr. reflexivity.
Qed.

(** X16. What fetchItem returns. The document parsed into a base item with
    at least one translator; the item is a movie exactly when the base item's
    ogType is video.movie, and carries that base item; the active translator
    is one of its translators; and the switch back to the active translator
    of a movie ends at once, with nothing sent. *)
Theorem fetched_item args retry w item w' :
  fetchItem args retry w = (Ok item, w') ->
  exists data baseItem translator,
    parseItemDocument data (ia_fullId args) = Ok baseItem /\
    pick_translator (ia_translatorId args) (b_translators baseItem) = Some translator /\
    In translator (b_translators baseItem) /\
    match item with
    | Movie m =>
        b_ogType baseItem = VideoMovie /\
        m_base m = with_ogType VideoMovie baseItem /\
        forall w2,
          fetchMovieTranslator {| mta_item := m; mta_translatorId := tr_id translator |}
                               0 w2
          = (Ok {| stream := None |}, w2)
    | Series s =>
        b_ogType baseItem = VideoTvSeries /\
        se_base s = with_ogType VideoTvSeries baseItem /\
        exists tree,
          find (fun e => Z.eqb (ss_translatorId e) (tr_id translator)) (se_streams s)
          = Some {| ss_translatorId := tr_id translator; ss_seasons := Some tree |}
    end.
Proof.
  unfold fetchItem, retrying. intros E.
  apply retry_loop_last in E as [w0 E]. unfold fetchItem_body in E.
  apply bind_ok in E as (data & w1 & _ & E).
  apply bind_ok in E as (baseItem & w2 & Hparse & E).
  apply lift_ok in Hparse as [Hparse ->].
  exists data, baseItem.
  destruct (b_ogType baseItem) eqn:Hkind;
    apply bind_ok in E as (x & w3 & Hx & E); apply ret_ok in E as [-> ->].
  - pose proof Hx as Hx'.
    apply fetchItemMovie_ok in Hx' as (translator & stream & Htr & ->).
    simpl in Htr. pose proof (pick_translator_in _ _ _ Htr) as Hin.
    exists translator. split; [exact Hparse |]. split; [exact Htr |].
    split; [exact Hin |]. split; [reflexivity |]. split; [reflexivity |].
    intros w4.
    destruct (find_present (fun t => Z.eqb (tr_id t) (tr_id translator)) _ _ Hin
                           (Z.eqb_refl _)) as (t & Hfind & _ & Ht).
    apply retrying_first.
    apply (fetchMovieTranslator_body_hit _ _ (movie_slot translator stream t) stream).
    + unfold movie_entry. simpl.
      change (map _ (b_translators baseItem))
        with (map (movie_slot translator stream) (b_translators baseItem)).
      rewrite find_map_slot. simpl. rewrite Hfind. reflexivity.
    + simpl. rewrite Ht. reflexivity.
  - apply fetchItemSeries_ok in Hx as (translator & res & w4 & info & Htr & _ & ->).
    simpl in Htr. pose proof (pick_translator_in _ _ _ Htr) as Hin.
    exists translator. split; [exact Hparse |]. split; [exact Htr |].
    split; [exact Hin |]. split; [reflexivity |]. split; [reflexivity |].
    destruct (find_present (fun t => Z.eqb (tr_id t) (tr_id translator)) _ _ Hin
                           (Z.eqb_refl _)) as (t & Hfind & _ & Ht).
    exists (tree_of (r_seasons res) (r_stream res) (r_streamFor res)). simpl.
    rewrite find_map_slot. cbn [series_entry ss_translatorId]. rewrite Hfind.
    cbn [option_map]. unfold series_entry. rewrite Ht.
    apply Z.eqb_eq in Ht. rewrite Ht. reflexivity.
Qed.
End TranslatorFacts.

(** ** Refusals of the upstream *)

Section RefusalFacts.
Context `{Imports}.

Lemma fetchSeriesStream_body_refused args w data rest :
  posts w = Ok data :: rest ->
  d_success data = false ->
  fetchSeriesStream_body args w
  = (Throw (refusal_of data "Unable to get episode stream details. Try again later."),
     mkWorld (docs w) rest (gets w) (heads w)
             (log w ++ [GetStream (ssa_id args) (ssa_translatorId args) (ssa_favsId args)
                                  (ssa_season args) (ssa_episode args)])
             (db w)).
Proof.
  intros Hposts Hrefused. unfold fetchSeriesStream_body, bind, ajax_post.
  rewrite Hposts. simpl. rewrite Hrefused. reflexivity.
Qed.

(** X17. A refusal is retried like any other failure and its message is
    what surfaces. When the upstream answers four times with the success flag
    false, fetchSeriesStream uses up the four answers and throws the error of
    the fourth: its message, or the default text when the answer has no
    message or an empty one; the parser is not consulted. *)
Theorem four_refusals args w d1 d2 d3 d4 rest :
  posts w = Ok d1 :: Ok d2 :: Ok d3 :: Ok d4 :: rest ->
  d_success d1 = false -> d_success d2 = false ->
  d_success d3 = false -> d_success d4 = false ->
  fst (fetchSeriesStream args 0 w)
  = Throw (UpstreamError
             match d_message d4 with
             | Some m => if String.eqb m "" then
                           "Unable to get episode stream details. Try again later."
                         else m
             | None => "Unable to get episode stream details. Try again later."
             end) /\
  posts (snd (fetchSeriesStream args 0 w)) = rest.
Proof.
  intros Hposts H1 H2 H3 H4. unfold fetchSeriesStream.
  rewrite retrying_unfold, (fetchSeriesStream_body_refused _ _ _ _ Hposts H1). simpl.
  rewrite retrying_unfold.
  erewrite fetchSeriesStream_body_refused; [| reflexivity | exact H2]. simpl.
  rewrite retrying_unfold.
  erewrite fetchSeriesStream_body_refused; [| reflexivity | exact H3]. simpl.
  rewrite retrying_unfold.
  erewrite fetchSeriesStream_body_refused; [| reflexivity | exact H4]. simpl.
  split; [| reflexivity].
  unfold refusal_of, or_string, truthy_string.
  destruct (d_message d4) as [m |]; [| reflexivity].
  destruct (String.eqb m ""); reflexivity.
Qed.
End RefusalFacts.

(** ** The first switch to a translator *)

Section FirstSwitchFacts.
Context `{Imports}.

(** On the tree fetched without hints the first leaf holds the stream, and
    the clamping steps end on it for a request of that leaf or of a season
    the tree does not have. *)
Lemma clamp_on_fresh_tree s0 rest e0 rest' stream requested :
  ps_episodes s0 = e0 :: rest' ->
  let tree := tree_of (s0 :: rest) stream
                      {| sf_season := ps_number s0; sf_episode := pe_number e0 |} in
  let st := {| season := Some (ps_number s0); episode := Some (pe_number e0) |} in
  requested = st \/ season_numbered (season requested) tree = None ->
  clamp tree requested
  = Ok (st, {| e_number := pe_number e0; e_title := pe_title e0;
               e_stream := Some stream |}).
Proof.
  intros E2 tree st Hreq.
  assert (Htree : exists S0 rest0 rest1,
             tree = S0 :: rest0 /\ s_number S0 = ps_number s0 /\
             s_episodes S0 = {| e_number := pe_number e0; e_title := pe_title e0;
                                e_stream := Some stream |} :: rest1).
  { subst tree. simpl. rewrite E2. simpl. rewrite !Z.eqb_refl. simpl. eauto 6. }
  destruct Htree as (S0 & rest0 & rest1 & Ht0 & Hn0 & He0).
  destruct Hreq as [-> | Habsent].
  - apply (clamp_present tree st S0).
    + unfold season_numbered. rewrite Ht0. simpl. rewrite Hn0, Z.eqb_refl. reflexivity.
    + unfold episode_numbered. rewrite He0. simpl. rewrite Z.eqb_refl. reflexivity.
  - rewrite (clamp_absent tree requested S0 rest0 _ rest1 Habsent Ht0 He0).
    rewrite Hn0. reflexivity.
Qed.

(** X18. The first switch to a translator costs one request when it can.
    When the translator's tree is not known, the upstream answers at once
    and the page has a first season with a first episode, a switch that asks
    for that leaf, or for a season the page does not have, sends the tree
    request and nothing else: it returns the fetched tree as [initial], that
    leaf as the state and no [next]. *)
Theorem first_switch_one_request args w entry data replies s0 rest e0 rest' stream :
  entry_of args = Some entry ->
  ss_seasons entry = None ->
  posts w = Ok data :: replies ->
  d_success data = true ->
  parseStreamSeasons (d_seasons data) (d_episodes data) = Ok (s0 :: rest) ->
  ps_episodes s0 = e0 :: rest' ->
  parseStream data = Ok stream ->
  let tree := tree_of (s0 :: rest) stream
                      {| sf_season := ps_number s0; sf_episode := pe_number e0 |} in
  let st := {| season := Some (ps_number s0); episode := Some (pe_number e0) |} in
  sta_state args = st \/ season_numbered (season (sta_state args)) tree = None ->
  exists w',
    fetchSeriesTranslator args 0 w
    = (Ok {| stateTo := st; initial := Some tree; next := None |}, w') /\
    log w' = log w ++ [episodes_request (tree_request args)].
Proof.
  intros Hentry Hunknown Hposts Hok Hseasons E2 Hstream tree st Hreq.
  destruct (fetchSeriesEpisodesStream_run (tree_request args) w data replies
              (s0 :: rest) stream (ps_number s0) (pe_number e0)
              Hposts Hok Hseasons Hstream)
    as (w' & Hfetch & Hlog).
  - reflexivity.
  - unfold default_episode. simpl. rewrite E2. reflexivity.
  - exists w'. split; [| exact Hlog].
    eapply switch_resolved.
    + exact Hentry.
    + rewrite Hunknown. unfold known_or_fetched, bind.
      unfold tree_request in Hfetch. rewrite Hfetch. reflexivity.
    + simpl. apply (clamp_on_fresh_tree s0 rest e0 rest' stream _ E2 Hreq).
    + reflexivity.
Qed.
End FirstSwitchFacts.

(** * The properties on the instance *)

Import Demo.




(** C3 on fetchSeriesStream: two failures, then the stream, three runs. *)
Lemma retry_semantics_witness :
  wrapped (fetchSeriesStream_body (Demo.leaf 2 10)) (fetchSeriesStream (Demo.leaf 2 10)) /\
  (forall i, (i < 2)%nat ->
             failed (outcome_at (fetchSeriesStream_body (Demo.leaf 2 10)) i Demo.flaky)) /\
  outcome_at (fetchSeriesStream_body (Demo.leaf 2 10)) 2 Demo.flaky
  = Ok (Demo.stream_at "cdn/x") /\
  fetchSeriesStream (Demo.leaf 2 10) 0 Demo.flaky
  = (Ok (Demo.stream_at "cdn/x"),
     world_after (fetchSeriesStream_body (Demo.leaf 2 10)) 3 Demo.flaky) /\
  retrying (counting (fetchSeriesStream_body (Demo.leaf 2 10))) 0 (Demo.flaky, 0%nat)
  = (Ok (Demo.stream_at "cdn/x"),
     (world_after (fetchSeriesStream_body (Demo.leaf 2 10)) 3 Demo.flaky, 3%nat)).
Proof.
  assert (Hfail : forall i, (i < 2)%nat ->
                            failed (outcome_at (fetchSeriesStream_body (Demo.leaf 2 10))
                                               i Demo.flaky)).
  { intros [| [| i]] Hi; [exact I | exact I | lia]. }
  split; [constructor |]. split; [exact Hfail |]. split; [reflexivity |].
  apply (retry_semantics (H := Demo.imports) (fetchSeriesStream_body (Demo.leaf 2 10))
                         (fetchSeriesStream (Demo.leaf 2 10)) Demo.flaky 2
                         (Ok (Demo.stream_at "cdn/x"))).
  - constructor.
  - lia.
  - exact Hfail.
  - reflexivity.
  - left. exact I.
Defined.

(** C4 on the page: the leaf (3, 1) holds a stream, nothing is sent. *)
Lemma leaf_reuse_witness :
  entry_of (Demo.switch 3 1)
  = Some {| ss_translatorId := 7; ss_seasons := Some Demo.tree |} /\
  fetchSeriesTranslator (Demo.switch 3 1) 0 (Demo.upstream [])
  = (Ok {| stateTo := {| season := Some 3; episode := Some 1 |};
           initial := None; next := None |}, Demo.upstream []).
Proof.
  split; [reflexivity |].
  apply (proj1 (leaf_reuse (H := Demo.imports)
                           (Demo.switch 3 1) (Demo.upstream []) _ eq_refl)
               Demo.tree {| season := Some 3; episode := Some 1 |}
               {| e_number := 1; e_title := "Episode"; e_stream := Some Demo.played |}
               Demo.played); reflexivity.
Defined.

(** C5 as stated fails on the page: the leaf (3, 1) holds a stream, the
    switch to (3, 1) returns the state and nothing else, and the stream is
    nowhere in the result. *)
Lemma leaf_reuse_returns_no_stream :
  option_map e_stream (leaf_at Demo.tree {| season := Some 3; episode := Some 1 |})
  = Some (Some Demo.played) /\
  fetchSeriesTranslator (Demo.switch 3 1) 0 (Demo.upstream [])
  = (Ok {| stateTo := {| season := Some 3; episode := Some 1 |};
           initial := None; next := None |}, Demo.upstream []) /\
  ~ In Demo.played
       (response_streams {| stateTo := {| season := Some 3; episode := Some 1 |};
                            initial := None; next := None |}).
Proof.
  split; [reflexivity |]. split; [reflexivity |]. simpl. intros [].
Qed.

(** C5, amended, on the page. *)
Lemma leaf_reuse_keeps_stream_witness :
  entry_of (Demo.switch 3 1)
  = Some {| ss_translatorId := 7; ss_seasons := Some Demo.tree |} /\
  leaf_at Demo.tree (sta_state (Demo.switch 3 1))
  = Some {| e_number := 1; e_title := "Episode"; e_stream := Some Demo.played |} /\
  exists res,
    fetchSeriesTranslator (Demo.switch 3 1) 0 (Demo.upstream [])
    = (Ok res, Demo.upstream []) /\
    stateTo res = sta_state (Demo.switch 3 1) /\
    initial res = None /\
    next res = None /\
    response_streams res = [] /\
    tree_used (Demo.switch 3 1) res = Some Demo.tree /\
    option_map e_stream (leaf_at Demo.tree (stateTo res)) = Some (Some Demo.played).
Proof.
  split; [reflexivity |]. split; [reflexivity |].
  apply (leaf_reuse_keeps_stream (H := Demo.imports)
                                 (Demo.switch 3 1) (Demo.upstream []) _ Demo.tree _
                                 Demo.played eq_refl eq_refl eq_refl eq_refl).
Defined.

(** C6 on a movie: a filled slot ends the switch at once, a null slot is
    filled with what fetchMovieStream gives. *)
Lemma movie_switch_witness :
  one_slot_per_translator (Demo.movie None) /\
  one_slot_per_translator (Demo.movie (Some Demo.played)) /\
  movie_entry (Demo.movie_switch_to (Demo.movie None))
  = Some {| ms_translatorId := 7; ms_stream := None |} /\
  movie_entry (Demo.movie_switch_to (Demo.movie (Some Demo.played)))
  = Some {| ms_translatorId := 7; ms_stream := Some Demo.played |} /\
  fetchMovieTranslator (Demo.movie_switch_to (Demo.movie (Some Demo.played))) 0
                       (Demo.upstream [Ok (Demo.payload "cdn/m")])
  = (Ok {| stream := None |}, Demo.upstream [Ok (Demo.payload "cdn/m")]) /\
  fetchMovieTranslator (Demo.movie_switch_to (Demo.movie None)) 0
                       (Demo.upstream [Ok (Demo.payload "cdn/m")])
  = (Ok {| stream := Some (Demo.stream_at "cdn/m") |},
     snd (fetchMovieStream
            (movie_request (Demo.movie_switch_to (Demo.movie None))
                           {| tr_id := 7; tr_isCamrip := false; tr_isAds := false;
                              tr_isDirector := false |})
            0 (Demo.upstream [Ok (Demo.payload "cdn/m")]))).
Proof.
  split; [reflexivity |]. split; [reflexivity |].
  split; [reflexivity |]. split; [reflexivity |]. split.
  - apply (proj1 (movie_switch (H := Demo.imports)
                               (Demo.movie_switch_to (Demo.movie (Some Demo.played)))
                               (Demo.upstream [Ok (Demo.payload "cdn/m")]) _
                               eq_refl eq_refl)
                 Demo.played eq_refl).
  - destruct (proj2 (movie_switch (H := Demo.imports)
                                  (Demo.movie_switch_to (Demo.movie None))
                                  (Demo.upstream [Ok (Demo.payload "cdn/m")]) _
                                  eq_refl eq_refl)
                    eq_refl) as (translator & Htr & Hfetch & _).
    vm_compute in Htr. inversion Htr; subst translator.
    apply Hfetch. vm_compute. reflexivity.
Defined.

(** C7 on a page that lists season 5 before season 1 and episode 8 before
    episode 3: with no hint the tree fetch targets season 5, episode 8, the
    first of the page and not the smallest numbers. *)
Lemma default_targeting_witness :
  esa_season (Demo.episodes None None) = None /\
  esa_episode (Demo.episodes None None) = None /\
  exists w',
    fetchSeriesEpisodesStream (Demo.episodes None None) 0
                              (Demo.upstream [Ok (Demo.unsorted_payload "cdn/a")])
    = (Ok {| r_seasons := Demo.unsorted_page; r_stream := Demo.stream_at "cdn/a";
             r_streamFor := {| sf_season := 5; sf_episode := 8 |} |}, w') /\
    log w' = [GetEpisodes 1 7 "favs" None None].
Proof.
  split; [reflexivity |]. split; [reflexivity |].
  apply (proj2 (default_targeting (H := Demo.imports) (Demo.episodes None None)
                                  (Demo.upstream [Ok (Demo.unsorted_payload "cdn/a")])
                                  eq_refl eq_refl)
               (Demo.unsorted_payload "cdn/a") [] Demo.unsorted_page
               (Demo.stream_at "cdn/a")
               (Demo.season_of 5 [8; 3])
               [Demo.season_of 1 [1; 2]]
               {| pe_number := 8; pe_title := "Episode" |}
               [{| pe_number := 3; pe_title := "Episode" |}]
               eq_refl eq_refl eq_refl eq_refl eq_refl eq_refl).
Defined.

(** C10 on the page: the hint names season 5, whose first episode is 1; the
    tree fetch answers season 5 with episode 10, the first episode of the
    first season of the page. *)
Lemma season_hint_alone_witness :
  esa_season (Demo.episodes (Some 5) None) = Some 5 /\
  5 <> 0 /\
  map pe_number (ps_episodes (Demo.season_of 5 [1])) = [1] /\
  exists w',
    fetchSeriesEpisodesStream (Demo.episodes (Some 5) None) 0
                              (Demo.upstream [Ok (Demo.payload "cdn/a")])
    = (Ok {| r_seasons := Demo.page; r_stream := Demo.stream_at "cdn/a";
             r_streamFor := {| sf_season := 5; sf_episode := 10 |} |}, w') /\
    log w' = [GetEpisodes 1 7 "favs" (Some 5) None].
Proof.
  split; [reflexivity |]. split; [lia |]. split; [reflexivity |].
  apply (proj2 (season_hint_alone (H := Demo.imports) (Demo.episodes (Some 5) None)
                                  (Demo.upstream [Ok (Demo.payload "cdn/a")]) 5
                                  eq_refl ltac:(lia) (or_introl eq_refl))
               (Demo.payload "cdn/a") [] Demo.page (Demo.stream_at "cdn/a")
               (Demo.season_of 2 [10; 11])
               [Demo.season_of 3 [1; 2]; Demo.season_of 5 [1]]
               {| pe_number := 10; pe_title := "Episode" |}
               [{| pe_number := 11; pe_title := "Episode" |}]
               eq_refl eq_refl eq_refl eq_refl eq_refl eq_refl).
Defined.

(** C8 as stated fails on the page: seasons 2, 3 and 5, episodes 10 and 11
    under season 2, only the leaf (3, 1) filled. The switch to season 99
    lands on (2, 10), whose slot is null, and sends the request for that
    leaf upstream. *)
Lemma clamping_fetches_null_leaf :
  entry_of (Demo.switch 99 1)
  = Some {| ss_translatorId := 7; ss_seasons := Some Demo.tree |} /\
  season_numbered (Some 99) Demo.tree = None /\
  fetchSeriesTranslator (Demo.switch 99 1) 0 (Demo.upstream [Ok (Demo.payload "cdn/b")])
  = (Ok {| stateTo := {| season := Some 2; episode := Some 10 |};
           initial := None;
           next := Some {| n_stream := Demo.stream_at "cdn/b";
                           n_streamFor := {| season := Some 2; episode := Some 10 |} |} |},
     mkWorld [] [] [] [] [GetStream 1 7 "favs" (Some 2) (Some 10)] Demo.empty_db).
Proof. split; [reflexivity |]. split; reflexivity. Qed.

(** C8, amended, on the page: whatever the upstream does, the switch to
    season 99 only ever asks for the leaf (2, 10). *)
Lemma clamp_before_leaf_witness :
  entry_of (Demo.switch 99 1)
  = Some {| ss_translatorId := 7; ss_seasons := Some Demo.tree |} /\
  season_numbered (season (sta_state (Demo.switch 99 1))) Demo.tree = None /\
  forall r w',
    fetchSeriesTranslator (Demo.switch 99 1) 0 Demo.flaky = (r, w') ->
    (exists n, log w' = log Demo.flaky
                        ++ repeat (GetStream 1 7 "favs" (Some 2) (Some 10)) n) /\
    (forall res, r = Ok res ->
                 stateTo res = {| season := Some 2; episode := Some 10 |}).
Proof.
  split; [reflexivity |]. split; [reflexivity |].
  apply (proj1 (clamp_before_leaf (H := Demo.imports) (Demo.switch 99 1) Demo.flaky
                                  {| ss_translatorId := 7; ss_seasons := Some Demo.tree |}
                                  Demo.tree
                                  (hd {| s_number := 0; s_title := ""; s_episodes := [] |}
                                      Demo.tree)
                                  (tl Demo.tree)
                                  {| e_number := 10; e_title := "Episode"; e_stream := None |}
                                  [{| e_number := 11; e_title := "Episode";
                                      e_stream := None |}]
                                  eq_refl eq_refl eq_refl eq_refl eq_refl)).
Defined.


(** The error that surfaces is the one of the branch that rejects first in
    time: with every request failing, the thumbnails' timeout when the
    replies come in turn, the bad response of a size when that branch is
    ahead. Either way the first three requests are those of the three calls,
    in the order of the calls. *)
Lemma first_rejection_follows_schedule :
  fst (fetchStreamDetails Demo.in_turn Demo.details 0 Demo.all_failing)
  = Throw (TransportError "ECONNABORTED") /\
  fst (fetchStreamDetails Demo.first_size_ahead Demo.details 0 Demo.all_failing)
  = Throw (TransportError "ERR_BAD_RESPONSE") /\
  firstn 3 (log (snd (details_branches Demo.in_turn Demo.details Demo.all_failing)))
  = [GetThumbnails "cdn/a/thumbnails"; HeadDownload "cdn/a/360.mp4";
     HeadDownload "cdn/a/720.mp4"] /\
  log (snd (details_branches Demo.first_size_ahead Demo.details Demo.all_failing))
  = [GetThumbnails "cdn/a/thumbnails"; HeadDownload "cdn/a/360.mp4";
     HeadDownload "cdn/a/720.mp4"; HeadDownload "cdn/a/360.mp4";
     HeadDownload "cdn/a/360.mp4"; HeadDownload "cdn/a/360.mp4"].
Proof. repeat split; vm_compute; reflexivity. Qed.

(** Four failed size requests and then two that succeed: the two size
    branches share the failures, neither runs out of retries, and the first
    attempt succeeds whatever the order of the replies. *)
Lemma retries_are_per_branch :
  fst (fetchStreamDetails Demo.in_turn Demo.details 0 Demo.four_bad_sizes)
  = Ok {| thumbnails := "sheet";
          sizes := [ {| z_id := 360; z_downloadSize := 1000; z_downloadSizeStr := "B" |};
                     {| z_id := 720; z_downloadSize := 2048;
                        z_downloadSizeStr := "KB" |} ] |} /\
  log (snd (fetchStreamDetails Demo.in_turn Demo.details 0 Demo.four_bad_sizes))
  = [GetThumbnails "cdn/a/thumbnails";
     HeadDownload "cdn/a/360.mp4"; HeadDownload "cdn/a/720.mp4";
     HeadDownload "cdn/a/360.mp4"; HeadDownload "cdn/a/720.mp4";
     HeadDownload "cdn/a/360.mp4"; HeadDownload "cdn/a/720.mp4"] /\
  succeeded (fst (fetchStreamDetails Demo.first_size_ahead Demo.details 0
                                     Demo.four_bad_sizes)).
Proof. repeat split; vm_compute; reflexivity. Qed.

(** * The further properties on the instance *)

(** X2 on the page with a flaky upstream: the switch to season 99 asks for
    the leaf (2, 10) only. *)
Lemma switch_request_bound_witness :
  entry_of (Demo.switch 99 1)
  = Some {| ss_translatorId := 7; ss_seasons := Some Demo.tree |} /\
  clamp Demo.tree (sta_state (Demo.switch 99 1))
  = Ok ({| season := Some 2; episode := Some 10 |},
        {| e_number := 10; e_title := "Episode"; e_stream := None |}) /\
  exists n,
    log (snd (fetchSeriesTranslator (Demo.switch 99 1) 0 Demo.flaky))
    = log Demo.flaky ++ repeat (GetStream 1 7 "favs" (Some 2) (Some 10)) n /\
    (n <= 16)%nat /\
    (@None Stream <> None -> n = 0%nat) /\
    (@None Stream = None -> (1 <= n)%nat).
Proof.
  split; [reflexivity |]. split; [reflexivity |].
  exact (switch_request_bound (H := Demo.imports) (Demo.switch 99 1) Demo.flaky
                              {| ss_translatorId := 7; ss_seasons := Some Demo.tree |}
                              Demo.tree {| season := Some 2; episode := Some 10 |}
                              {| e_number := 10; e_title := "Episode"; e_stream := None |}
                              eq_refl eq_refl eq_refl).
Defined.

(** X3 on the instance: translator 8 has no entry and no slot. *)
Lemma switch_without_entry_witness :
  entry_of (More.switch_on Demo.series 8 3 1) = None /\
  movie_entry {| mta_item := Demo.movie None; mta_translatorId := 8 |} = None /\
  fetchSeriesTranslator (More.switch_on Demo.series 8 3 1) 0 Demo.flaky
  = (Throw (TypeError "seasons"), Demo.flaky) /\
  fetchMovieTranslator {| mta_item := Demo.movie None; mta_translatorId := 8 |} 0 Demo.flaky
  = (Throw (TypeError "stream"), Demo.flaky).
Proof.
  split; [reflexivity |]. split; [reflexivity |]. split.
  - exact (proj1 (switch_without_entry (H := Demo.imports))
                 (More.switch_on Demo.series 8 3 1) 0%nat Demo.flaky eq_refl).
  - exact (proj2 (switch_without_entry (H := Demo.imports))
                 {| mta_item := Demo.movie None; mta_translatorId := 8 |}
                 0%nat Demo.flaky eq_refl).
Defined.

(** X4 on a series whose known tree is empty. *)
Lemma switch_on_hollow_tree_witness :
  entry_of (More.switch_on More.hollow 7 3 1)
  = Some {| ss_translatorId := 7; ss_seasons := Some [] |} /\
  fetchSeriesTranslator (More.switch_on More.hollow 7 3 1) 0 Demo.flaky
  = (Throw (TypeError "number"), Demo.flaky).
Proof.
  split; [reflexivity |].
  exact (switch_on_hollow_tree (H := Demo.imports) (More.switch_on More.hollow 7 3 1)
                               0%nat Demo.flaky
                               {| ss_translatorId := 7; ss_seasons := Some [] |} []
                               eq_refl eq_refl (or_introl eq_refl)).
Defined.

(** X5 on the page: the switch to season 99 returns a [next] for the leaf
    (2, 10), whose slot was null, and no [initial]. *)
Lemma switch_result_shape_witness :
  fetchSeriesTranslator (Demo.switch 99 1) 0 (Demo.upstream [Ok (Demo.payload "cdn/b")])
  = (Ok {| stateTo := {| season := Some 2; episode := Some 10 |};
           initial := None;
           next := Some {| n_stream := Demo.stream_at "cdn/b";
                           n_streamFor := {| season := Some 2; episode := Some 10 |} |} |},
     mkWorld [] [] [] [] [GetStream 1 7 "favs" (Some 2) (Some 10)] Demo.empty_db) /\
  exists entry tree leaf,
    entry_of (Demo.switch 99 1) = Some entry /\
    Some Demo.tree = Some tree /\
    leaf_at tree {| season := Some 2; episode := Some 10 |} = Some leaf /\
    (@None (list ItemSeriesSeasonStream) = None <-> ss_seasons entry = Some tree) /\
    (@None (list ItemSeriesSeasonStream) = Some tree <-> ss_seasons entry = None) /\
    (Some {| n_stream := Demo.stream_at "cdn/b";
             n_streamFor := {| season := Some 2; episode := Some 10 |} |} = None
     <-> e_stream leaf <> None) /\
    (forall n,
        Some {| n_stream := Demo.stream_at "cdn/b";
                n_streamFor := {| season := Some 2; episode := Some 10 |} |} = Some n ->
        n_streamFor n = {| season := Some 2; episode := Some 10 |}).
Proof.
  split; [reflexivity |].
  exact (switch_result_shape (H := Demo.imports) (Demo.switch 99 1) 0%nat
                             (Demo.upstream [Ok (Demo.payload "cdn/b")]) _ _ eq_refl).
Defined.

(** X6 on the series of the instance. *)
Lemma fetchTranslator_dispatch_witness :
  fetchTranslator {| ta_item := Series Demo.series; ta_translatorId := 7;
                     ta_state := {| season := Some 3; episode := Some 1 |} |}
                  0 (Demo.upstream [])
  = (Ok (SeriesSwitch {| stateTo := {| season := Some 3; episode := Some 1 |};
                         initial := None; next := None |}), Demo.upstream []) /\
  exists w0,
    fetchSeriesTranslator (Demo.switch 3 1) 0 w0
    = (Ok {| stateTo := {| season := Some 3; episode := Some 1 |};
             initial := None; next := None |}, Demo.upstream []).
Proof.
  split; [reflexivity |].
  exact (fetchTranslator_dispatch (H := Demo.imports)
           {| ta_item := Series Demo.series; ta_translatorId := 7;
              ta_state := {| season := Some 3; episode := Some 1 |} |}
           0%nat (Demo.upstream []) _ _ eq_refl).
Defined.

(** X7 on a movie with translators 7 and 9, assembled for 7. *)
Lemma assembled_movie_witness :
  fetchItemMovie (More.movie_for 7) 0 (Demo.upstream [Ok (Demo.payload "cdn/m")])
  = (Ok More.assembled_movie_7,
     snd (fetchItemMovie (More.movie_for 7) 0 (Demo.upstream [Ok (Demo.payload "cdn/m")])))
  /\
  exists translator stream i,
    (i <= 3 - 0)%nat /\
    ima_translator (More.movie_for 7) = Some translator /\
    fetchMovieStream
      {| msa_id := b_id (ima_baseItem (More.movie_for 7));
         msa_translatorId := tr_id translator;
         msa_favsId := b_favsId (ima_baseItem (More.movie_for 7));
         msa_isCamrip := tr_isCamrip translator;
         msa_isAds := tr_isAds translator;
         msa_isDirector := tr_isDirector translator |} 0
      (world_after (fetchItemMovie_body (More.movie_for 7)) i
                   (Demo.upstream [Ok (Demo.payload "cdn/m")]))
    = (Ok stream,
       snd (fetchItemMovie (More.movie_for 7) 0
                           (Demo.upstream [Ok (Demo.payload "cdn/m")]))) /\
    b_ogType (m_base More.assembled_movie_7) = VideoMovie /\
    b_translators (m_base More.assembled_movie_7)
    = b_translators (ima_baseItem (More.movie_for 7)) /\
    map ms_translatorId (m_streams More.assembled_movie_7)
    = map tr_id (b_translators (m_base More.assembled_movie_7)) /\
    (forall slot, In slot (m_streams More.assembled_movie_7) ->
                  ms_stream slot = if Z.eqb (ms_translatorId slot) (tr_id translator)
                                   then Some stream else None) /\
    (forall translatorId,
        movie_entry {| mta_item := More.assembled_movie_7;
                       mta_translatorId := translatorId |} = None <->
        movie_translator {| mta_item := More.assembled_movie_7;
                            mta_translatorId := translatorId |} = None).
Proof.
  assert (Hrun : fetchItemMovie (More.movie_for 7) 0
                                (Demo.upstream [Ok (Demo.payload "cdn/m")])
                 = (Ok More.assembled_movie_7,
                    snd (fetchItemMovie (More.movie_for 7) 0
                                        (Demo.upstream [Ok (Demo.payload "cdn/m")]))))
    by (vm_compute; reflexivity).
  split; [exact Hrun |].
  exact (assembled_movie (H := Demo.imports) _ _ _ _ _ Hrun).
Defined.

(** X8 on that movie: the switch back to translator 7 sends nothing. *)
Lemma assembled_movie_switch_back_witness :
  ima_translator (More.movie_for 7) = Some (More.voice 7) /\
  In (More.voice 7) (b_translators (ima_baseItem (More.movie_for 7))) /\
  forall w2,
    fetchMovieTranslator {| mta_item := More.assembled_movie_7;
                            mta_translatorId := 7 |} 0 w2
    = (Ok {| stream := None |}, w2).
Proof.
  assert (Hrun : fetchItemMovie (More.movie_for 7) 0
                                (Demo.upstream [Ok (Demo.payload "cdn/m")])
                 = (Ok More.assembled_movie_7,
                    snd (fetchItemMovie (More.movie_for 7) 0
                                        (Demo.upstream [Ok (Demo.payload "cdn/m")]))))
    by (vm_compute; reflexivity).
  split; [reflexivity |]. split; [left; reflexivity |].
  exact (assembled_movie_switch_back (H := Demo.imports) _ _ _ _ _ (More.voice 7)
                                     Hrun eq_refl (or_introl eq_refl)).
Defined.

(** X9 on a series with translators 7 and 9, assembled for 7 without hints:
    the tree of the page with the leaf (2, 10) filled. *)
Lemma assembled_series_witness :
  fetchItemSeries (More.series_for 7 None None) 0
                  (Demo.upstream [Ok (Demo.payload "cdn/m")])
  = (Ok (More.assembled_series_7 {| sf_season := 2; sf_episode := 10 |}),
     snd (fetchItemSeries (More.series_for 7 None None) 0
                          (Demo.upstream [Ok (Demo.payload "cdn/m")]))) /\
  exists translator res i,
    (i <= 3 - 0)%nat /\
    isa_translator (More.series_for 7 None None) = Some translator /\
    fetchSeriesEpisodesStream
      {| esa_id := b_id (isa_baseItem (More.series_for 7 None None));
         esa_translatorId := tr_id translator;
         esa_favsId := b_favsId (isa_baseItem (More.series_for 7 None None));
         esa_season := isa_season (More.series_for 7 None None);
         esa_episode := isa_episode (More.series_for 7 None None) |} 0
      (world_after (fetchItemSeries_body (More.series_for 7 None None)) i
                   (Demo.upstream [Ok (Demo.payload "cdn/m")]))
    = (Ok res,
       snd (fetchItemSeries (More.series_for 7 None None) 0
                            (Demo.upstream [Ok (Demo.payload "cdn/m")]))) /\
    b_ogType (se_base (More.assembled_series_7 {| sf_season := 2; sf_episode := 10 |}))
    = VideoTvSeries /\
    parseItemDocumentEpisodes (isa_document (More.series_for 7 None None))
    = Ok (se_episodesInfo
            (More.assembled_series_7 {| sf_season := 2; sf_episode := 10 |})) /\
    map ss_translatorId
        (se_streams (More.assembled_series_7 {| sf_season := 2; sf_episode := 10 |}))
    = map tr_id
          (b_translators
             (se_base (More.assembled_series_7 {| sf_season := 2; sf_episode := 10 |})))
    /\
    exists tree,
      (forall entry,
          In entry
             (se_streams
                (More.assembled_series_7 {| sf_season := 2; sf_episode := 10 |})) ->
          ss_seasons entry = if Z.eqb (ss_translatorId entry) (tr_id translator)
                             then Some tree else None) /\
      map s_number tree = map ps_number (r_seasons res) /\
      map (fun s => map e_number (s_episodes s)) tree
      = map (fun s => map pe_number (ps_episodes s)) (r_seasons res) /\
      (forall s leaf,
          In s tree -> In leaf (s_episodes s) ->
          s_number s = sf_season (r_streamFor res) ->
          e_number leaf = sf_episode (r_streamFor res) ->
          e_stream leaf = Some (r_stream res)) /\
      (forall s leaf x,
          In s tree -> In leaf (s_episodes s) -> e_stream leaf = Some x ->
          x = r_stream res /\ s_number s = sf_season (r_streamFor res) /\
          e_number leaf = sf_episode (r_streamFor res)).
Proof.
  assert (Hrun : fetchItemSeries (More.series_for 7 None None) 0
                                 (Demo.upstream [Ok (Demo.payload "cdn/m")])
                 = (Ok (More.assembled_series_7 {| sf_season := 2; sf_episode := 10 |}),
                    snd (fetchItemSeries (More.series_for 7 None None) 0
                                         (Demo.upstream [Ok (Demo.payload "cdn/m")]))))
    by (vm_compute; reflexivity).
  split; [exact Hrun |].
  exact (assembled_series (H := Demo.imports) _ _ _ _ _ Hrun).
Defined.

(** X10 on that series: the switch back to translator 7 needs no request for
    the leaf (2, 10) or for a season the page does not have. *)
Lemma assembled_series_switch_back_witness :
  isa_season (More.series_for 7 None None) = None /\
  isa_episode (More.series_for 7 None None) = None /\
  In (More.voice 7) (b_translators (isa_baseItem (More.series_for 7 None None))) /\
  exists tree st,
    (forall requested,
        tree_used {| sta_item := More.assembled_series_7
                                   {| sf_season := 2; sf_episode := 10 |};
                     sta_translatorId := 7; sta_state := requested |}
                  {| stateTo := st; initial := None; next := None |} = Some tree) /\
    forall requested w2,
      requested = st \/ season_numbered (season requested) tree = None ->
      fetchSeriesTranslator
        {| sta_item := More.assembled_series_7 {| sf_season := 2; sf_episode := 10 |};
           sta_translatorId := 7; sta_state := requested |} 0 w2
      = (Ok {| stateTo := st; initial := None; next := None |}, w2).
Proof.
  assert (Hrun : fetchItemSeries (More.series_for 7 None None) 0
                                 (Demo.upstream [Ok (Demo.payload "cdn/m")])
                 = (Ok (More.assembled_series_7 {| sf_season := 2; sf_episode := 10 |}),
                    snd (fetchItemSeries (More.series_for 7 None None) 0
                                         (Demo.upstream [Ok (Demo.payload "cdn/m")]))))
    by (vm_compute; reflexivity).
  split; [reflexivity |]. split; [reflexivity |]. split; [left; reflexivity |].
  exact (assembled_series_switch_back (H := Demo.imports) _ _ _ _ _ (More.voice 7)
                                      Hrun eq_refl eq_refl eq_refl (or_introl eq_refl)).
Defined.

(** X11 on the page: the hints season 4, episode 9 come back as streamFor
    although the page has no season 4. *)
Lemma hints_are_echoed_witness :
  esa_season (Demo.episodes (Some 4) (Some 9)) = Some 4 /\
  esa_episode (Demo.episodes (Some 4) (Some 9)) = Some 9 /\
  map ps_number Demo.page = [2; 3; 5] /\
  exists w',
    fetchSeriesEpisodesStream (Demo.episodes (Some 4) (Some 9)) 0
                              (Demo.upstream [Ok (Demo.payload "cdn/a")])
    = (Ok {| r_seasons := Demo.page; r_stream := Demo.stream_at "cdn/a";
             r_streamFor := {| sf_season := 4; sf_episode := 9 |} |}, w') /\
    log w' = [GetEpisodes 1 7 "favs" (Some 4) (Some 9)].
Proof.
  split; [reflexivity |]. split; [reflexivity |]. split; [reflexivity |].
  apply (proj2 (hints_are_echoed (H := Demo.imports) (Demo.episodes (Some 4) (Some 9))
                                 (Demo.upstream [Ok (Demo.payload "cdn/a")]) 4 9
                                 eq_refl ltac:(lia) eq_refl ltac:(lia))
               (Demo.payload "cdn/a") [] Demo.page (Demo.stream_at "cdn/a")
               eq_refl eq_refl eq_refl eq_refl).
Defined.

(** X12 on the page: assembled with the hint season 4, the tree of
    translator 7 holds no stream. *)
Lemma hinted_season_not_on_page_witness :
  fetchItemSeries (More.series_for 7 (Some 4) None) 0
                  (Demo.upstream [Ok (Demo.payload "cdn/m")])
  = (Ok (More.assembled_series_7 {| sf_season := 4; sf_episode := 10 |}),
     snd (fetchItemSeries (More.series_for 7 (Some 4) None) 0
                          (Demo.upstream [Ok (Demo.payload "cdn/m")]))) /\
  tree_streams (tree_of Demo.page (Demo.stream_at "cdn/m")
                        {| sf_season := 4; sf_episode := 10 |}) = [].
Proof.
  assert (Hrun : fetchItemSeries (More.series_for 7 (Some 4) None) 0
                                 (Demo.upstream [Ok (Demo.payload "cdn/m")])
                 = (Ok (More.assembled_series_7 {| sf_season := 4; sf_episode := 10 |}),
                    snd (fetchItemSeries (More.series_for 7 (Some 4) None) 0
                                         (Demo.upstream [Ok (Demo.payload "cdn/m")]))))
    by (vm_compute; reflexivity).
  split; [exact Hrun |].
  apply (hinted_season_not_on_page (H := Demo.imports) _ _ _ _ _ 4 Hrun eq_refl
                                   ltac:(lia)
                                   {| ss_translatorId := 7;
                                      ss_seasons :=
                                        Some (tree_of Demo.page (Demo.stream_at "cdn/m")
                                                {| sf_season := 4; sf_episode := 10 |}) |}).
  - left. reflexivity.
  - reflexivity.
  - intros s' Hin. simpl in Hin.
    destruct Hin as [<- | [<- | [<- | []]]]; simpl; lia.
Defined.

(** X13 on a stream of two qualities whose sizes both arrive, the replies
    reaching the branches in turn. *)
Lemma sizes_follow_qualities_witness :
  fetchStreamDetails Demo.in_turn Demo.details 0 More.all_sizes
  = (Ok {| thumbnails := "sheet";
           sizes := [ {| z_id := 360; z_downloadSize := 1000; z_downloadSizeStr := "B" |};
                      {| z_id := 720; z_downloadSize := 2048;
                         z_downloadSizeStr := "KB" |} ] |},
     snd (fetchStreamDetails Demo.in_turn Demo.details 0 More.all_sizes)) /\
  map z_id [ {| z_id := 360; z_downloadSize := 1000; z_downloadSizeStr := "B" |};
             {| z_id := 720; z_downloadSize := 2048; z_downloadSizeStr := "KB" |} ]
  = map q_id (qualities (da_stream Demo.details)) /\
  Forall (fun z => z_downloadSizeStr z = bytesToStr (z_downloadSize z))
         [ {| z_id := 360; z_downloadSize := 1000; z_downloadSizeStr := "B" |};
           {| z_id := 720; z_downloadSize := 2048; z_downloadSizeStr := "KB" |} ].
Proof.
  assert (Hrun : fetchStreamDetails Demo.in_turn Demo.details 0 More.all_sizes
                 = (Ok {| thumbnails := "sheet";
                          sizes := [ {| z_id := 360; z_downloadSize := 1000;
                                        z_downloadSizeStr := "B" |};
                                     {| z_id := 720; z_downloadSize := 2048;
                                        z_downloadSizeStr := "KB" |} ] |},
                    snd (fetchStreamDetails Demo.in_turn Demo.details 0 More.all_sizes)))
    by (vm_compute; reflexivity).
  split; [exact Hrun |].
  exact (sizes_follow_qualities (H := Demo.imports) _ _ _ _ _ _ Hrun).
Defined.

(** X14 on two translators: id 9 picks translator 9, id 8 the first. *)
Lemma active_translator_witness :
  (exists t, pick_translator (Some 9) [More.voice 7; More.voice 9] = Some t /\
             tr_id t = tr_id (More.voice 9)) /\
  pick_translator (Some 8) [More.voice 7; More.voice 9]
  = head [More.voice 7; More.voice 9].
Proof.
  split.
  - apply (proj1 (proj2 (proj2 (active_translator (Some 9)
                                                  [More.voice 7; More.voice 9])))
                 (More.voice 9)).
    + right. left. reflexivity.
    + reflexivity.
  - apply (proj2 (proj2 (proj2 (active_translator (Some 8)
                                                  [More.voice 7; More.voice 9])))).
    intros t' [<- | [<- | []]]; discriminate.
Defined.

(** X15 on a base item handed over without a translator. *)
Lemma item_without_translator_witness :
  fetchItemMovie {| ima_baseItem := More.two_voices VideoMovie; ima_translator := None |}
                 0 Demo.flaky
  = (Throw (TypeError "id"), Demo.flaky) /\
  fetchItemSeries {| isa_baseItem := More.two_voices VideoTvSeries;
                     isa_translator := None; isa_document := "document";
                     isa_season := None; isa_episode := None |}
                  0 Demo.flaky
  = (Throw (TypeError "id"), Demo.flaky).
Proof.
  split.
  - exact (proj1 (item_without_translator (H := Demo.imports))
                 {| ima_baseItem := More.two_voices VideoMovie; ima_translator := None |}
                 0%nat Demo.flaky eq_refl).
  - exact (proj2 (item_without_translator (H := Demo.imports))
                 {| isa_baseItem := More.two_voices VideoTvSeries;
                    isa_translator := None; isa_document := "document";
                    isa_season := None; isa_episode := None |}
                 0%nat Demo.flaky tt eq_refl eq_refl).
Defined.

(** X16 on a film with translators 7 and 9, asked for with translator 9. *)
Lemma fetched_item_witness :
  fetchItem (H := More.catalogue) More.film 0 More.film_upstream
  = (Ok (Movie (H := More.catalogue)
               {| m_base := More.two_voices VideoMovie;
                  m_streams :=
                    [ {| ms_translatorId := 7; ms_stream := None |};
                      {| ms_translatorId := 9;
                         ms_stream := Some (Demo.stream_at "cdn/m") |} ] |}),
     snd (fetchItem (H := More.catalogue) More.film 0 More.film_upstream)) /\
  exists data baseItem translator,
    parseItemDocument (Imports := More.catalogue) data (ia_fullId More.film)
    = Ok baseItem /\
    pick_translator (ia_translatorId More.film) (b_translators baseItem)
    = Some translator /\
    In translator (b_translators baseItem) /\
    b_ogType baseItem = VideoMovie /\
    More.two_voices VideoMovie = with_ogType VideoMovie baseItem /\
    forall w2,
      fetchMovieTranslator (H := More.catalogue)
        {| mta_item := {| m_base := More.two_voices VideoMovie;
                          m_streams :=
                            [ {| ms_translatorId := 7; ms_stream := None |};
                              {| ms_translatorId := 9;
                                 ms_stream := Some (Demo.stream_at "cdn/m") |} ] |};
           mta_translatorId := tr_id translator |} 0 w2
      = (Ok {| stream := None |}, w2).
Proof.
  assert (Hrun : fetchItem (H := More.catalogue) More.film 0 More.film_upstream
                 = (Ok (Movie (H := More.catalogue)
                              {| m_base := More.two_voices VideoMovie;
                                 m_streams :=
                                   [ {| ms_translatorId := 7; ms_stream := None |};
                                     {| ms_translatorId := 9;
                                        ms_stream := Some (Demo.stream_at "cdn/m") |} ] |}),
                    snd (fetchItem (H := More.catalogue) More.film 0 More.film_upstream)))
    by (vm_compute; reflexivity).
  split; [exact Hrun |].
  exact (fetched_item (H := More.catalogue) _ _ _ _ _ Hrun).
Defined.

(** X17 on four refusals, the last without a message worth showing: the
    default text surfaces. *)
Lemma four_refusals_witness :
  posts (Demo.upstream [Ok Demo.refusal; Ok Demo.refusal; Ok Demo.refusal;
                        Ok More.silent_refusal])
  = [Ok Demo.refusal; Ok Demo.refusal; Ok Demo.refusal; Ok More.silent_refusal] /\
  fst (fetchSeriesStream (Demo.leaf 2 10) 0
         (Demo.upstream [Ok Demo.refusal; Ok Demo.refusal; Ok Demo.refusal;
                         Ok More.silent_refusal]))
  = Throw (UpstreamError "Unable to get episode stream details. Try again later.") /\
  posts (snd (fetchSeriesStream (Demo.leaf 2 10) 0
                (Demo.upstream [Ok Demo.refusal; Ok Demo.refusal; Ok Demo.refusal;
                                Ok More.silent_refusal])))
  = [].
Proof.
  split; [reflexivity |].
  exact (four_refusals (H := Demo.imports) (Demo.leaf 2 10)
                       (Demo.upstream [Ok Demo.refusal; Ok Demo.refusal; Ok Demo.refusal;
                                       Ok More.silent_refusal])
                       Demo.refusal Demo.refusal Demo.refusal More.silent_refusal []
                       eq_refl eq_refl eq_refl eq_refl eq_refl).
Defined.

(** X18 on the page: the first switch to translator 7, asking for season 99,
    sends the tree request only and lands on (2, 10). *)
Lemma first_switch_one_request_witness :
  entry_of (Demo.first_switch 99 1)
  = Some {| ss_translatorId := 7; ss_seasons := None |} /\
  season_numbered (season (sta_state (Demo.first_switch 99 1)))
                  (tree_of Demo.page (Demo.stream_at "cdn/a")
                           {| sf_season := 2; sf_episode := 10 |}) = None /\
  exists w',
    fetchSeriesTranslator (Demo.first_switch 99 1) 0
                          (Demo.upstream [Ok (Demo.payload "cdn/a")])
    = (Ok {| stateTo := {| season := Some 2; episode := Some 10 |};
             initial := Some (tree_of Demo.page (Demo.stream_at "cdn/a")
                                      {| sf_season := 2; sf_episode := 10 |});
             next := None |}, w') /\
    log w' = [GetEpisodes 1 7 "favs" None None].
Proof.
  split; [reflexivity |]. split; [reflexivity |].
  exact (first_switch_one_request (H := Demo.imports) (Demo.first_switch 99 1)
           (Demo.upstream [Ok (Demo.payload "cdn/a")])
           {| ss_translatorId := 7; ss_seasons := None |}
           (Demo.payload "cdn/a") []
           (Demo.season_of 2 [10; 11])
           [Demo.season_of 3 [1; 2]; Demo.season_of 5 [1]]
           {| pe_number := 10; pe_title := "Episode" |}
           [{| pe_number := 11; pe_title := "Episode" |}]
           (Demo.stream_at "cdn/a")
           eq_refl eq_refl eq_refl eq_refl eq_refl eq_refl eq_refl
           (or_intror eq_refl)).
Defined.
